(** * vscode-phpsab: exit-status translation, disabled-standard detection,
    validation scheduling and fix reconciliation.

    A shallow embedding of [errors.ts], of [validate] and its completion
    handler in the sniffer, and of [format] in the fixer, with the properties
    the specification states about them. *)

From stdpp Require Import gmap strings pretty list fin_maps.
From Stdlib Require Import ZArith Ascii.

Open Scope string_scope.
Open Scope list_scope.

(** ** JavaScript strings

    A string is held as the bytes of its UTF-8 encoding, which is what a
    Rocq string literal gives. *)
Module JsString.

(** [a === b] on strings. *)
Definition eqb_string (a b : string) : bool := bool_decide (a = b).

(** [s.startsWith(p)]. *)
Fixpoint startsWith (s p : string) {struct p} : bool :=
  match p, s with
  | EmptyString, _ => true
  | String c p', String d s' => bool_decide (c = d) && startsWith s' p'
  | String _ _, EmptyString => false
  end.

(** [hay.includes(needle)]. *)
Fixpoint includes (hay needle : string) : bool :=
  startsWith hay needle ||
  match hay with
  | EmptyString => false
  | String _ hay' => includes hay' needle
  end.

(** Drop the first [n] code units. *)
Fixpoint drop_string (n : nat) (s : string) : string :=
  match n, s with
  | O, _ => s
  | S n', String _ s' => drop_string n' s'
  | S _, EmptyString => EmptyString
  end.

(** [s.replace(pat, rep)] with a string pattern: the first occurrence only. *)
Fixpoint replace (s pat rep : string) : string :=
  if startsWith s pat then rep +:+ drop_string (String.length pat) s
  else match s with
       | EmptyString => EmptyString
       | String c s' => String c (replace s' pat rep)
       end.

(** The white space and the line terminators of ECMAScript, which
    [String.prototype.trim] strips and [\s] matches.  In ASCII: TAB, LF, VT,
    FF, CR and SP. *)
Definition is_white_space (c : ascii) : bool :=
  let n := nat_of_ascii c in
  bool_decide (n = 9 ∨ n = 10 ∨ n = 11 ∨ n = 12 ∨ n = 13 ∨ n = 32)%nat.

(** In two bytes of UTF-8: the no-break space U+00A0. *)
Definition is_white_space2 (c1 c2 : ascii) : bool :=
  bool_decide (nat_of_ascii c1 = 194 ∧ nat_of_ascii c2 = 160)%nat.

(** In three bytes: U+1680, U+2000 to U+200A, the line and paragraph
    separators U+2028 and U+2029, U+202F, U+205F, U+3000 and the byte order
    mark U+FEFF. *)
Definition is_white_space3 (c1 c2 c3 : ascii) : bool :=
  let n1 := nat_of_ascii c1 in
  let n2 := nat_of_ascii c2 in
  let n3 := nat_of_ascii c3 in
  bool_decide
    ((n1 = 225 ∧ n2 = 154 ∧ n3 = 128) ∨
     (n1 = 226 ∧ n2 = 128 ∧ ((128 ≤ n3 ∧ n3 ≤ 138) ∨ n3 = 168 ∨ n3 = 169 ∨ n3 = 175)) ∨
     (n1 = 226 ∧ n2 = 129 ∧ n3 = 159) ∨
     (n1 = 227 ∧ n2 = 128 ∧ n3 = 128) ∨
     (n1 = 239 ∧ n2 = 187 ∧ n3 = 191))%nat.

(** [s] without the white-space character it opens with, if it opens with
    one. *)
Definition skip_white_space (s : string) : option string :=
  match s with
  | EmptyString => None
  | String c1 s1 =>
      if is_white_space c1 then Some s1
      else match s1 with
           | EmptyString => None
           | String c2 s2 =>
               if is_white_space2 c1 c2 then Some s2
               else match s2 with
                    | EmptyString => None
                    | String c3 s3 => if is_white_space3 c1 c2 c3 then Some s3 else None
                    end
           end
  end.

Fixpoint trimStart (s : string) : string :=
  match s with
  | EmptyString => EmptyString
  | String c1 s1 =>
      if is_white_space c1 then trimStart s1
      else match s1 with
           | EmptyString => s
           | String c2 s2 =>
               if is_white_space2 c1 c2 then trimStart s2
               else match s2 with
                    | EmptyString => s
                    | String c3 s3 => if is_white_space3 c1 c2 c3 then trimStart s3 else s
                    end
           end
  end.

(** The white space at the end starts where what is left is white space
    only. *)
Fixpoint trimEnd (s : string) : string :=
  match s with
  | EmptyString => EmptyString
  | String c s' => if eqb_string (trimStart s) EmptyString then EmptyString
                   else String c (trimEnd s')
  end.

(** [s.trim()]. *)
Definition trim (s : string) : string := trimEnd (trimStart s).

Definition upper_ascii (c : ascii) : ascii :=
  let n := nat_of_ascii c in
  if bool_decide (97 ≤ n ∧ n ≤ 122)%nat then ascii_of_nat (n - 32) else c.

(** [s.toUpperCase()] on the letters a-z. *)
Fixpoint toUpperCase (s : string) : string :=
  match s with
  | EmptyString => EmptyString
  | String c s' => String (upper_ascii c) (toUpperCase s')
  end.

(** The double quote and the line feed, as one-character strings. *)
Definition dquote : string := String (ascii_of_nat 34) EmptyString.
Definition nl : string := String (ascii_of_nat 10) EmptyString.

(** Truthiness of a string: the empty string is falsy. *)
Definition truthy (s : string) : bool := negb (eqb_string s "").

(** [a || b] on strings. *)
Definition or_else (a b : string) : string := if truthy a then a else b.

End JsString.

(** ** errors.ts *)
Module Errors.
Import JsString.

(** An exit code or status: [number | string]; [null] is [None] of
    [option Code]. *)
Inductive Code :=
  | Num (n : Z)
  | Str (s : string).

#[global] Instance Code_eq_dec : EqDecision Code.
Proof. solve_decision. Defined.

(** [type: 'fixer' | 'sniffer']. *)
Inductive ToolType := fixer | sniffer.

(** [type: 'phpcs' | 'phpcbf']. *)
Inductive Tool := phpcs | phpcbf.

#[global] Instance ToolType_eq_dec : EqDecision ToolType.
Proof. solve_decision. Defined.

#[global] Instance Tool_eq_dec : EqDecision Tool.
Proof. solve_decision. Defined.

(** The string a [Tool] is. *)
Definition tool_name (t : Tool) : string :=
  match t with phpcs => "phpcs" | phpcbf => "phpcbf" end.

(** What the logger receives. *)
Inductive LogEntry :=
  | LogInfo (msg : string)
  | LogError (msg : string).

(** The property key an object is indexed with: [ToString] of the value
    (exit codes are integers). *)
Definition propertyKey (c : Code) : string :=
  match c with
  | Num n => pretty n
  | Str s => s
  end.

(** The string a template literal gives for a value. *)
Definition template (c : Code) : string := propertyKey c.

(** [errorMsgs], as the module initialises it.  It is a mutable object:
    [getErrorMsg] writes to it, so the functions below take and return the
    table. *)
Definition errorMsgs : gmap string string :=
  list_to_map
    [ ("-1", "");
      ("0", "No errors were found");
      ("1", "Auto-fixable errors were found");
      ("2", "Non-auto-fixable errors were found");
      ("3", "Auto-fixable and non-auto-fixable errors were found");
      ("4", "Failed to fix some files or conflict between sniffs");
      ("5", "Failed to fix some auto-fixable errors");
      ("7", "Failed to fix some auto-fixable errors with a mixture of non-auto-fixable");
      ("16", "Processing error") ].

Definition digit_of_ascii (c : ascii) : option Z :=
  let n := nat_of_ascii c in
  if bool_decide (48 ≤ n ∧ n ≤ 57)%nat then Some (Z.of_nat (n - 48)) else None.

Fixpoint digits (acc : Z) (s : string) : option Z :=
  match s with
  | EmptyString => Some acc
  | String c s' =>
      match digit_of_ascii c with
      | Some d => digits (10 * acc + d) s'
      | None => None
      end
  end.

(** [Number(key)] on the keys of the table: a decimal integer with an
    optional minus sign; [None] is [NaN]. *)
Definition Number (key : string) : option Z :=
  match key with
  | EmptyString => Some 0%Z
  | String "-" (String c s) => Z.opp <$> digits 0 (String c s)
  | _ => digits 0 key
  end.

(** [Object.keys(o)]. The order of the keys plays no part below. *)
Definition Object_keys {V} (o : gmap string V) : list string := (map_to_list o).*1.

(** [Object.fromEntries(entries)]: a later entry overwrites an earlier one. *)
Definition Object_fromEntries (entries : list (Code * Code)) : gmap string Code :=
  foldl (λ o kv, <[propertyKey kv.1 := kv.2]> o) ∅ entries.

Definition map4xStatusFromErrors (table : gmap string string) : gmap string Code :=
  Object_fromEntries
    ((λ key,
        let numKey := match Number key with
                      | None => Str key
                      | Some n => Num n
                      end in
        (numKey, numKey)) <$> Object_keys table).

(** The 3.x table of [getMappedExitCode]. *)
Definition status3x : gmap string Code :=
  list_to_map
    [ ("-1", Str "-1"); ("0", Num 0); ("1", Num 2); ("2", Num 1); ("3", Num 16) ].

(** [getMappedExitCode(code, type)].  [snifferVersionString] is what the
    awaited [snifferVersion()] gave ([None] for [undefined]); [table] is the
    current [errorMsgs].  The result comes with what was logged.  A code is
    an exit status or the sentinel, so [status[code]] finds own properties
    only. *)
Definition getMappedExitCode (table : gmap string string)
    (snifferVersionString : option string)
    (code : option Code) (type : ToolType) : Code * list LogEntry :=
  let code := default (Str "-1") code in
  match snifferVersionString with
  | None => (code, [LogError "Unable to determine sniffer version"])
  | Some v =>
      let status : gmap string Code :=
        if startsWith v "4." then map4xStatusFromErrors table
        else if startsWith v "3." then
          match type with
          | fixer => <["2" := Num 5]> (<["1" := Num 0]> status3x)
          | sniffer => status3x
          end
        else ∅ in
      (default code (status !! propertyKey code), [])
  end.

(** [getErrorMsg(status, type)]: the message ([None] for [undefined]) and the
    table it leaves behind. *)
Definition getErrorMsg (status : Code) (type : ToolType)
    (table : gmap string string) : option string * gmap string string :=
  let table' :=
    match type with
    | fixer => <["0" := "No errors were found or all errors were fixed"]> table
    | sniffer => table
    end in
  (table' !! propertyKey status, table').

(** The file system as [fs.existsSync] and [fs.readFileSync] see a path. *)
Inductive FileState :=
  | Absent
  | Unreadable
  | File (content : string).

Definition FileSystem := string → FileState.

Definition existsSync (fs : FileSystem) (path : string) : bool :=
  match fs path with
  | Absent => false
  | _ => true
  end.

(** [fs.readFileSync(path, 'utf8')]; [None] when it throws. *)
Definition readFileSync (fs : FileSystem) (path : string) : option string :=
  match fs path with
  | File content => Some content
  | _ => None
  end.

Definition hasNoSniffsError (stdout stderr : string) : bool :=
  includes stdout "No sniffs were registered" ||
  includes stderr "No sniffs were registered".

(** The text [name="value"] of an attribute, quotes included. *)
Definition attribute (name value : string) : string :=
  name +:+ "=" +:+ dquote +:+ value +:+ dquote.

(** The attribute list [isStandardDisabled] searches for a tool. *)
Definition attributes (type : Tool) : list string :=
  match type with
  | phpcs => [attribute "phpcs-only" "false"; attribute "phpcbf-only" "true"]
  | phpcbf => [attribute "phpcs-only" "true"; attribute "phpcbf-only" "false"]
  end.

(** [attributes.some((attr) => content.includes(attr))]. *)
Definition some_included (content : string) (attrs : list string) : bool :=
  existsb (λ attr, includes content attr) attrs.

Definition isStandardDisabled (fs : FileSystem) (standard : string)
    (type : Tool) (stdout stderr : string) : bool * list LogEntry :=
  if negb (truthy standard) || bool_decide (String.length standard = 0%nat)
  then (false, [])
  else
    let body : option bool :=
      if existsSync fs standard then
        match readFileSync fs standard with
        | None => None
        | Some standardContent =>
            Some (some_included standardContent (attributes type))
        end
      else Some false in
    match body with
    | None => (false, [LogError ("Could not read standard file: " +:+ standard)])
    | Some isDisabled =>
        if isDisabled && hasNoSniffsError stdout stderr
        then (true, [])
        else (false, [])
    end.

(** [getStandardDisabledErrorMsg(standard, type, stdout, stderr)]. *)
Definition getStandardDisabledErrorMsg (standard : string) (type : Tool)
    (stdout stderr : string) : string :=
  let output := or_else stdout stderr in
  let typeUpperCase := toUpperCase (tool_name type) in
  let otherToolUpperCase := match type with phpcs => "PHPCBF" | phpcbf => "PHPCS" end in
  let error :=
    typeUpperCase +:+ " is disabled for the coding standard (" +:+ dquote +:+
    standard +:+ dquote +:+ "), and is configured to be " +:+
    otherToolUpperCase +:+
    "-only. It either has the attribute 'phpcs-only' or 'phpcbf-only' set to 'true' or 'false'." +:+
    nl in
  let error := error +:+ nl +:+ typeUpperCase +:+ " " in
  let error :=
    error +:+
    replace output
      (nl +:+ "Run " +:+ dquote +:+ tool_name type +:+ " --help" +:+ dquote +:+
       " for usage information")
      "" in
  trim error.

End Errors.

(** ** The sniffer: [validate] and its completion handler *)
Module Sniffer.
Import JsString Errors.

(** A document's [Uri], the key of the runner map and of the diagnostic
    collection.  The map compares its keys as objects; a document keeps one
    [Uri] object, which the embedding names by a string. *)
Definition Uri := string.

(** Modelled from the spec: the report types of [interfaces/phpcs-report]
    ([PHPCSReport], [PHPCSFile], [PHPCSMessage]) are not among the sources; a
    message carries the fields the handler destructures, with 1-based line
    and column.  Line and column are numbers with an integer value. *)
Record PHPCSMessage := {
  msg_message : string;
  msg_source : string;
  msg_fixable : bool;
  msg_type : string;
  msg_line : Z;
  msg_column : Z
}.

Record PHPCSFile := { messages : list PHPCSMessage }.

(** [files] is an object keyed by file name; the list is its enumeration
    order. *)
Record PHPCSReport := { files : list (string * PHPCSFile) }.

(** What [JSON.parse(stdout)] comes to: a report, taken at the type the
    handler declares for it ([PHPCSReport]), or a thrown value with its
    [instanceof Error] and its [toString()]. *)
Inductive ParseResult :=
  | ParseOk (report : PHPCSReport)
  | ParseThrows (isError : bool) (errorString : string).

Inductive DiagnosticSeverity := Error | Warning.

(** A [Range] of the editor, from one position to another. *)
Record Range := {
  startLine : Z;
  startCharacter : Z;
  endLine : Z;
  endCharacter : Z
}.

(** [new Range(startLine, startCharacter, endLine, endCharacter)].  The
    class is the editor's: it makes a [Position] of each end, and the
    constructor of [Position] refuses a negative line or character by
    throwing an [Error].  [inl] holds the [toString()] of that error. *)
Definition new_Range (startLine startCharacter endLine endCharacter : Z) : string + Range :=
  if bool_decide (startLine < 0)%Z
  then inl "Error: Illegal argument: line must be non-negative"
  else if bool_decide (startCharacter < 0)%Z
  then inl "Error: Illegal argument: character must be non-negative"
  else if bool_decide (endLine < 0)%Z
  then inl "Error: Illegal argument: line must be non-negative"
  else if bool_decide (endCharacter < 0)%Z
  then inl "Error: Illegal argument: character must be non-negative"
  else inr {| startLine := startLine; startCharacter := startCharacter;
              endLine := endLine; endCharacter := endCharacter |}.

(** The nearest double to an integer, ties to the even significand: a number
    of JavaScript keeps 53 bits.  Up to 2^53 in magnitude every integer is a
    double. *)
Definition round_double (x : Z) : Z :=
  let a := Z.abs x in
  if (a <=? 2 ^ 53)%Z then x
  else
    let k := (Z.log2 a - 52)%Z in
    let q := Z.shiftr a k in
    let r := Z.land a (Z.ones k) in
    let half := Z.shiftl 1 (k - 1) in
    let q' := if (r <? half)%Z || ((r =? half)%Z && Z.even q) then q else (q + 1)%Z in
    (Z.sgn x * Z.shiftl q' k)%Z.

(** [n - 1] on numbers. *)
Definition minus_one (n : Z) : Z := round_double (n - 1).

Record Diagnostic := {
  range : Range;
  diag_message : string;
  severity : DiagnosticSeverity;
  diag_source : string
}.

(** A [CancellationTokenSource] object; its token reads
    [isCancellationRequested]. *)
Record CancellationTokenSource := {
  isCancellationRequested : bool;
  isDisposed : bool
}.

(** How a handler settles the run's promise. *)
Inductive Settled :=
  | Resolved
  | Rejected (reason : string).

(** The module's state.  Token sources are objects: [tokenSources] is the
    store, a runner is an index into it, and [runnerCancellations] maps a
    [Uri] to a runner. *)
Record State := {
  runnerCancellations : gmap Uri nat;
  tokenSources : list CancellationTokenSource;
  diagnosticCollection : gmap Uri (list Diagnostic);
  errorMessages : list string;
  logged : list LogEntry
}.

(** The state at activation: no runner, nothing published. *)
Definition initial : State :=
  {| runnerCancellations := ∅; tokenSources := []; diagnosticCollection := ∅;
     errorMessages := []; logged := [] |}.

(** Field updates. *)
Definition set_tokenSources (f : list CancellationTokenSource → list CancellationTokenSource)
    (s : State) : State :=
  {| runnerCancellations := runnerCancellations s;
     tokenSources := f (tokenSources s);
     diagnosticCollection := diagnosticCollection s;
     errorMessages := errorMessages s;
     logged := logged s |}.

Definition set_runnerCancellations (f : gmap Uri nat → gmap Uri nat) (s : State) : State :=
  {| runnerCancellations := f (runnerCancellations s);
     tokenSources := tokenSources s;
     diagnosticCollection := diagnosticCollection s;
     errorMessages := errorMessages s;
     logged := logged s |}.

Definition set_diagnosticCollection
    (f : gmap Uri (list Diagnostic) → gmap Uri (list Diagnostic)) (s : State) : State :=
  {| runnerCancellations := runnerCancellations s;
     tokenSources := tokenSources s;
     diagnosticCollection := f (diagnosticCollection s);
     errorMessages := errorMessages s;
     logged := logged s |}.

(** [window.showErrorMessage(message)]. *)
Definition showErrorMessage (message : string) (s : State) : State :=
  {| runnerCancellations := runnerCancellations s;
     tokenSources := tokenSources s;
     diagnosticCollection := diagnosticCollection s;
     errorMessages := errorMessages s ++ [message];
     logged := logged s |}.

(** The logger called with [entries], in order. *)
Definition log (entries : list LogEntry) (s : State) : State :=
  {| runnerCancellations := runnerCancellations s;
     tokenSources := tokenSources s;
     diagnosticCollection := diagnosticCollection s;
     errorMessages := errorMessages s;
     logged := logged s ++ entries |}.

(** [runner.cancel()]. *)
Definition cancel (runner : nat) : State → State :=
  set_tokenSources
    (alter (λ t, {| isCancellationRequested := true; isDisposed := isDisposed t |}) runner).

(** [runner.dispose()]. *)
Definition dispose (runner : nat) : State → State :=
  set_tokenSources
    (alter (λ t, {| isCancellationRequested := isCancellationRequested t;
                    isDisposed := true |}) runner).

(** [new CancellationTokenSource()]: the new runner and the store with it. *)
Definition new_CancellationTokenSource (s : State) : nat * State :=
  (length (tokenSources s),
   set_tokenSources
     (λ l, l ++ [{| isCancellationRequested := false; isDisposed := false |}]) s).

(** The first step of the runner block of [validate]: cancel and dispose the
    old runner of the document, if the map has one. *)
Definition retire_oldRunner (uri : Uri) (s : State) : State :=
  match runnerCancellations s !! uri with
  | Some oldRunner => dispose oldRunner (cancel oldRunner s)
  | None => s
  end.

(** The second step: make a runner and store it under the document. *)
Definition install_runner (uri : Uri) (s : State) : nat * State :=
  let '(runner, s1) := new_CancellationTokenSource s in
  (runner, set_runnerCancellations (<[uri := runner]>) s1).

(** [validate(document)] up to the first suspension after the runner block:
    the guards, then the runner block.  [None] when a guard returns. *)
Definition validate (uri : Uri) (languageId : string) (workspaceFolder : option nat)
    (snifferEnable : bool) (s : State) : option nat * State :=
  match workspaceFolder with
  | None => (None, s)
  | Some _ =>
      if negb (eqb_string languageId "php") || negb snifferEnable then (None, s)
      else
        let '(runner, s') := install_runner uri (retire_oldRunner uri s) in
        (Some runner, s')
  end.

(** What the completion handler of a run closes over. *)
Record Run := {
  run_uri : Uri;
  run_runner : nat;
  run_standard : string;
  run_showSources : bool
}.

(** [token.isCancellationRequested] of a runner. *)
Definition token_cancelled (runner : nat) (s : State) : bool :=
  match tokenSources s !! runner with
  | Some t => isCancellationRequested t
  | None => false
  end.

Section Handler.

(** [JSON.parse] on the tool's output and the value of
    [PHPCSMessageType.ERROR] are given from outside the sources. *)
Variable JSON_parse : string → ParseResult.
Variable PHPCSMessageType_ERROR : string.

(** The body of the [forEach] callback: one message to one diagnostic, or
    the error that [new Range] throws ([inl], with its [toString()]). *)
Definition diagnostic_of (showSources : bool) (m : PHPCSMessage) : string + Diagnostic :=
  let zeroLine := minus_one (msg_line m) in
  let ZeroColumn := minus_one (msg_column m) in
  match new_Range zeroLine ZeroColumn zeroLine ZeroColumn with
  | inl errorString => inl errorString
  | inr range =>
      let severity := if eqb_string (msg_type m) PHPCSMessageType_ERROR
                      then Error else Warning in
      let output := msg_message m in
      let output := if showSources
                    then output +:+ nl +:+ "(" +:+ msg_source m +:+ ")"
                    else output in
      let output := output +:+ nl +:+ "Auto-fixable: " +:+
                    (if msg_fixable m then "✔️" else "❌") in
      inr {| range := range; diag_message := output; severity := severity;
             diag_source := "phpcs" |}
  end.

(** All messages of a report, file by file. *)
Definition report_messages (report : PHPCSReport) : list PHPCSMessage :=
  flat_map (λ file, messages file.2) (files report).

(** The loops of the [try] block over the messages, in the order of the
    report: the diagnostics pushed, and the error that ended the loops, if
    one was thrown.  What was pushed before a throw stays in [diagnostics]. *)
Fixpoint push_diagnostics (showSources : bool) (ms : list PHPCSMessage)
    : list Diagnostic * option string :=
  match ms with
  | [] => ([], None)
  | m :: ms' =>
      match diagnostic_of showSources m with
      | inl errorString => ([], Some errorString)
      | inr diagnostic =>
          let '(diagnostics, thrown) := push_diagnostics showSources ms' in
          (diagnostic :: diagnostics, thrown)
      end
  end.

(** The tail of the handler, after the [try]: publish, dispose, forget. *)
Definition publish (run : Run) (diagnostics : list Diagnostic) (s : State) : State :=
  set_runnerCancellations (delete (run_uri run))
    (dispose (run_runner run)
       (set_diagnosticCollection (<[run_uri run := diagnostics]>) s)).

(** The [try] block of the handler: the diagnostics pushed, and what was
    thrown, by [JSON.parse] or by [new Range] inside the loops, with its
    [instanceof Error] and its [toString()]. *)
Definition try_block (showSources : bool) (stdout : string)
    : list Diagnostic * option (bool * string) :=
  match JSON_parse stdout with
  | ParseOk report =>
      let '(diagnostics, refused) := push_diagnostics showSources (report_messages report) in
      (diagnostics, (λ errorString, (true, errorString)) <$> refused)
  | ParseThrows isError errorString => ([], Some (isError, errorString))
  end.

(** The [close] handler of a run, without the status line that is logged
    from the promise of [getMappedExitCode].  The [catch] block does not
    return, so the tail of the handler publishes the diagnostics on both
    paths. *)
Definition on_close (fs : FileSystem) (run : Run) (stdout stderr : string)
    (s : State) : Settled * State :=
  let standard := run_standard run in
  if token_cancelled (run_runner run) s || negb (truthy stdout) then
    let '(disabled, entries) := isStandardDisabled fs standard phpcs stdout stderr in
    let s := log entries s in
    let s :=
      if disabled then
        let message := getStandardDisabledErrorMsg standard phpcs stdout stderr in
        showErrorMessage message (log [LogInfo ("SNIFFER: " +:+ message)] s)
      else s in
    (Resolved, s)
  else
    let '(diagnostics, thrown) := try_block (run_showSources run) stdout in
    match thrown with
    | None => (Resolved, publish run diagnostics s)
    | Some (isError, errorString) =>
        let message := EmptyString in
        let message := if truthy stdout then message +:+ stdout +:+ nl else message in
        let message := if truthy stderr then message +:+ stderr +:+ nl else message in
        let message := if isError then message +:+ errorString
                       else message +:+ "Unexpected error" in
        let '(disabled, entries) := isStandardDisabled fs standard phpcs stdout stderr in
        let s := log entries s in
        let message := if disabled
                       then getStandardDisabledErrorMsg standard phpcs stdout stderr
                       else message in
        let s := log [LogError message] (showErrorMessage message s) in
        (Rejected message, publish run diagnostics s)
    end.

(** The status line the handler logs once [getMappedExitCode] has settled. *)
Definition status_line (table : gmap string string) (version : option string)
    (code : option Code) : list LogEntry :=
  let '(mappedCode, entries) := getMappedExitCode table version code sniffer in
  let '(errorMsg, _) := getErrorMsg mappedCode sniffer table in
  entries ++
  [LogInfo ("SNIFFER STATUS: " +:+ template mappedCode +:+ " - " +:+
            default "undefined" errorMsg)].

(** [clearDocumentDiagnostics(document)]. *)
Definition clearDocumentDiagnostics (uri : Uri) : State → State :=
  set_diagnosticCollection (delete uri).

(** [diagnosticCollection.clear()], the first statement of [refresh]. *)
Definition clear : State → State :=
  set_diagnosticCollection (λ _, ∅).

(** *** The scheduler as a machine

    What can happen to the module, one event at a time.  A configuration
    keeps, next to the state, the runs started so far: the run whose runner
    is [r] is at index [r], with a flag telling whether its process has
    closed. *)
Record Config := {
  state : State;
  runs : list (Run * bool)
}.

(** The events: [validate] called for a document, up to its runner block;
    the process of a run closing; a document closing; and the collection
    cleared by [refresh]. *)
Inductive Event :=
  | EvValidate (uri : Uri) (languageId : string) (workspaceFolder : option nat)
      (snifferEnable : bool) (standard : string) (showSources : bool)
  | EvClose (runner : nat) (fs : FileSystem) (code : option Code)
      (stdout stderr : string) (version : option string) (table : gmap string string)
  | EvCloseDocument (uri : Uri)
  | EvClear.

(** One event.  A close is taken once per run, for a run that was started. *)
Definition step (c : Config) (ev : Event) : Config :=
  match ev with
  | EvValidate uri languageId workspaceFolder snifferEnable standard showSources =>
      match validate uri languageId workspaceFolder snifferEnable (state c) with
      | (Some runner, s') =>
          {| state := s';
             runs := runs c ++ [({| run_uri := uri; run_runner := runner;
                                    run_standard := standard;
                                    run_showSources := showSources |}, false)] |}
      | (None, s') => {| state := s'; runs := runs c |}
      end
  | EvClose runner fs code stdout stderr version table =>
      match runs c !! runner with
      | Some (run, false) =>
          let s' := (on_close fs run stdout stderr (state c)).2 in
          {| state := log (status_line table version code) s';
             runs := <[runner := (run, true)]> (runs c) |}
      | _ => c
      end
  | EvCloseDocument uri =>
      {| state := clearDocumentDiagnostics uri (state c); runs := runs c |}
  | EvClear => {| state := clear (state c); runs := runs c |}
  end.

(** The configuration at activation. *)
Definition start : Config := {| state := initial; runs := [] |}.

(** The configuration after a sequence of events. *)
Definition run_events (evs : list Event) : Config := foldl step start evs.

End Handler.

(** A token source is live when it is neither cancelled nor disposed. *)
Definition live (runner : nat) (s : State) : Prop :=
  tokenSources s !! runner =
    Some {| isCancellationRequested := false; isDisposed := false |}.

End Sniffer.

(** ** The fixer: [format] *)
Module Fixer.
Import JsString Errors.

(** Modelled from the spec: [ConsoleError] of [interfaces/console-error] is
    not among the sources; it is the error object of a failed spawn, with the
    [code] and [message] that [format] reads. *)
Record ConsoleError := {
  code : string;
  message : string
}.

(** [fixer.error]: [format] tells [undefined], [null] and an error object
    apart ([=== undefined] in the no-status case, [!= null] elsewhere). *)
Inductive SpawnError :=
  | error_undefined
  | error_null
  | error_object (e : ConsoleError).

(** What [spawn.sync] returns, as far as [format] reads it, for a process
    that gave its output: [status] is [None] for [null]. *)
Record SpawnSyncReturns := {
  status : option Z;
  stdout : string;
  error : SpawnError
}.

(** What [format] is called with and finds: the guards' inputs, the
    settings, the document text, the resolved standard and the finished
    process.  [stderr] is a name that [format] reads and that neither the
    function nor the module declares, so it is looked up in the global scope:
    the field holds the string bound to it there, [None] when nothing is, as
    in the module as it stands. *)
Record FormatInput := {
  workspaceFolder : option nat;
  languageId : string;
  fixerEnable : bool;
  debug : bool;
  fileText : string;
  standard : string;
  fixer : SpawnSyncReturns;
  stderr : option string
}.

(** An error object thrown while [format] or the provider runs. *)
Inductive JsError :=
  (** a name that is not defined was read *)
  | ReferenceError (name : string)
  (** a property was read off [null] or [undefined] *)
  | TypeError (property : string)
  (** [new Error(message)] *)
  | PlainError (message : string).

(** How the promise of [format] settles: resolved with a text, rejected with
    the [error] text, or rejected with an error that was thrown on the way. *)
Inductive Outcome :=
  | Resolve (text : string)
  | Reject (reason : string)
  | Throw (e : JsError).

(** The outcome with the effects next to it: the local [message], the
    information messages shown, the log and the message table. *)
Record FormatOutput := {
  outcome : Outcome;
  info_message : string;
  informationMessages : list string;
  logged : list LogEntry;
  table_after : gmap string string
}.

Definition nodeErrors : gmap string string :=
  list_to_map
    [ ("ERR_OPERATION_FAILED", "A general script execution error occurred.");
      ("ENOENT", "No such file or directory");
      ("ETIMEDOUT", "Script execution timed out.") ].

(** A table entry inside a concatenation: a missing one reads undefined. *)
Definition lookup_text (o : gmap string string) (key : string) : string :=
  default "undefined" (o !! key).

(** The text built from the spawn error in the case of 5 and in the default
    case. *)
Definition node_internal_error (e : ConsoleError) : string :=
  ("FIXER - Node Internal Error: " +:+ message e) +:+ nl +:+ lookup_text nodeErrors (code e).

(** The [switch (exitcode)] of [format], with [stderr] bound to
    [stderr_value]: the locals [error], [result] and [message] it leaves and
    what [isStandardDisabled] logged, or the error thrown in the no-status
    case when [code] is read off a [null] spawn error. *)
Definition format_switch (fs : FileSystem) (inp : FormatInput) (stderr_value : string)
    (exitcode : Code) (errorMsg : string)
    : JsError + (string * string * string * list LogEntry) :=
  let fixed := trim (stdout (fixer inp)) in
  let changed := negb (bool_decide (String.length fixed = 0%nat))
                 && negb (eqb_string fixed (fileText inp)) in
  if bool_decide (exitcode = Str "-1") then
    let error := lookup_text nodeErrors "ERR_OPERATION_FAILED" in
    match Fixer.error (fixer inp) with
    | error_undefined => inr (error, EmptyString, EmptyString, [])
    | error_null => inl (TypeError "code")
    | error_object execError =>
        let error := if eqb_string (code execError) "ETIMEDOUT"
                     then "FIXER: Formatting the document timed out."
                     else error in
        let error := if eqb_string (code execError) "ENOENT"
                     then "FIXER: " +:+ message execError +:+ ". executablePath not found."
                     else error in
        inr (error, EmptyString, EmptyString, [])
    end
  else if bool_decide (exitcode = Num 0) then
    if changed
    then inr (EmptyString, fixed, "All fixable errors were fixed correctly.", [])
    else inr (EmptyString, EmptyString, "No fixable errors were found.", [])
  else if bool_decide (exitcode = Num 5) then
    if changed
    then inr (EmptyString, fixed, "FIXER: " +:+ errorMsg, [])
    else match Fixer.error (fixer inp) with
         | error_object e => inr (node_internal_error e, EmptyString, EmptyString, [])
         | _ => inr (EmptyString, EmptyString, EmptyString, [])
         end
  else
    let '(disabled, entries) :=
      isStandardDisabled fs (standard inp) phpcbf (trim (stdout (fixer inp))) stderr_value in
    if disabled then
      inr (getStandardDisabledErrorMsg (standard inp) phpcbf (trim (stdout (fixer inp)))
             stderr_value,
           EmptyString, EmptyString, entries)
    else
      let error := "FIXER: " +:+ errorMsg in
      let error :=
        if negb (bool_decide (String.length fixed = 0%nat))
        then error +:+ nl +:+ fixed +:+ nl
        else match Fixer.error (fixer inp) with
             | error_object e => node_internal_error e
             | _ => "FATAL: Unknown error occurred."
             end in
      inr (error, EmptyString, EmptyString, entries).

(** [format(document, fullDocument)] from its guards to its result, with the
    process already run.  [version] is how the call of [snifferVersion()]
    inside [getMappedExitCode] ends: [None] when it throws (there is no
    active editor to read [uri] from), or what it returns; [table] is the
    message table on entry.  The command line and the timers of the logger
    are left out.

    Past the guards the function awaits [getMappedExitCode], which rejects
    when the version call throws; then it asks [getErrorMsg], logs the status
    and reads [stderr], which throws when that name is not bound; then comes
    the switch. *)
Definition format (fs : FileSystem) (version : option (option string))
    (table : gmap string string) (inp : FormatInput) : FormatOutput :=
  let quiet text infos :=
    {| outcome := Resolve text; info_message := EmptyString;
       informationMessages := infos; logged := []; table_after := table |} in
  let thrown e entries table' :=
    {| outcome := Throw e; info_message := EmptyString;
       informationMessages := []; logged := entries; table_after := table' |} in
  match workspaceFolder inp with
  | None => quiet EmptyString []
  | Some _ =>
      if negb (eqb_string (languageId inp) "php") then quiet EmptyString []
      else if negb (fixerEnable inp) then
        quiet EmptyString
          ["Fixer is disable for this workspace or PHPCBF was not found for this workspace."]
      else
        match version with
        | None => thrown (TypeError "uri") [] table
        | Some snifferVersionString =>
            let '(exitcode, entries) :=
              getMappedExitCode table snifferVersionString (Num <$> status (fixer inp))
                Errors.fixer in
            let '(errorMsg, table') := getErrorMsg exitcode Errors.fixer table in
            let errorMsg := default "undefined" errorMsg in
            let log1 :=
              entries ++
              [LogInfo ("FIXER STATUS: " +:+ template exitcode +:+ " - " +:+ errorMsg)] in
            match stderr inp with
            | None => thrown (ReferenceError "stderr") log1 table'
            | Some stderr_value =>
                let log2 := if truthy stderr_value
                            then [LogError ("FIXER STDERR: " +:+ stderr_value)] else [] in
                match format_switch fs inp stderr_value exitcode errorMsg with
                | inl e => thrown e (log1 ++ log2) table'
                | inr (error, result, message, log3) =>
                    let shown := debug inp && negb (truthy error) in
                    let infos := if shown then [message] else [] in
                    let log4 := if shown then [LogInfo ("FIXER MESSAGE: " +:+ message)]
                                else [] in
                    if truthy error then
                      {| outcome := Reject error; info_message := message;
                         informationMessages := infos;
                         logged := log1 ++ log2 ++ log3 ++ log4 ++ [LogError error];
                         table_after := table' |}
                    else
                      {| outcome := Resolve result; info_message := message;
                         informationMessages := infos;
                         logged := log1 ++ log2 ++ log3 ++ log4;
                         table_after := table' |}
                end
            end
        end
  end.

End Fixer.

(** ** The sniffer: its command line and the version of the tool *)
Module SnifferCommand.
Import JsString Errors.

(** [arg.indexOf(text) === -1]. *)
Definition lacks (arg text : string) : bool := negb (includes arg text).

(** The filter [validate] puts on [resourceConf.snifferArguments]. *)
Definition additionalArguments (snifferArguments : list string) : list string :=
  filter
    (λ arg,
       lacks arg "--report" && lacks arg "--standard" && lacks arg "--stdin-path"
       && negb (eqb_string arg "-q") && negb (eqb_string arg "-") = true)
    snifferArguments.

(** [getArgs(document, standard, additionalArguments)] of the sniffer;
    [filePath] is [document.fileName]. *)
Definition getArgs (filePath standard : string) (additionalArguments : list string)
    : list string :=
  let args := [] in
  let args := args ++ ["--report=json"] in
  let args := args ++ ["-q"] in
  let args := if negb (eqb_string standard EmptyString)
              then args ++ ["--standard=" +:+ dquote +:+ standard +:+ dquote]
              else args in
  let args := args ++ ["--stdin-path=" +:+ dquote +:+ filePath +:+ dquote] in
  let args := args ++ ["-"] in
  args ++ additionalArguments.

(** The arguments [validate] spawns the sniffer with. *)
Definition lintArgs (filePath standard : string) (snifferArguments : list string)
    : list string :=
  getArgs filePath standard (additionalArguments snifferArguments).

(** *** [snifferVersion]

    The pattern [(\d+\.\d+\.\d+(?:-[^\s]+)?)] is matched by hand.  A run of
    digits that must be followed by a dot can only be the longest run, the
    last run and the optional group are greedy with nothing after them, and
    the search takes the leftmost start. *)

Definition is_digit (c : ascii) : bool :=
  let n := nat_of_ascii c in bool_decide (48 ≤ n ∧ n ≤ 57)%nat.

(** The longest prefix of characters that satisfy [p], and the rest. *)
Fixpoint span (p : ascii → bool) (s : string) : string * string :=
  match s with
  | EmptyString => (EmptyString, EmptyString)
  | String c s' =>
      if p c then let '(run, rest) := span p s' in (String c run, rest)
      else (EmptyString, s)
  end.

(** [\d+] at the head of [s]. *)
Definition digits1 (s : string) : option (string * string) :=
  match span is_digit s with
  | (EmptyString, _) => None
  | (run, rest) => Some (run, rest)
  end.

(** [\.] at the head of [s]. *)
Definition dot (s : string) : option string :=
  match s with
  | String "." rest => Some rest
  | _ => None
  end.

(** [[^\s]+] at the head of [s], as far as it goes: up to the first
    white-space character. *)
Fixpoint span_non_space (s : string) : string :=
  match s with
  | EmptyString => EmptyString
  | String c s' =>
      match skip_white_space s with
      | Some _ => EmptyString
      | None => String c (span_non_space s')
      end
  end.

(** [(?:-[^\s]+)?] at the head of [s]: what it matches, maybe nothing. *)
Definition prerelease (s : string) : string :=
  match s with
  | String "-" rest =>
      match span_non_space rest with
      | EmptyString => EmptyString
      | run => String "-" run
      end
  | _ => EmptyString
  end.

(** The whole pattern at the head of [s]. *)
Definition match_here (s : string) : option string :=
  '(major, s1) ← digits1 s;
  s2 ← dot s1;
  '(minor, s3) ← digits1 s2;
  s4 ← dot s3;
  '(patch, s5) ← digits1 s4;
  Some (major +:+ "." +:+ minor +:+ "." +:+ patch +:+ prerelease s5).

(** [output.match(pattern)]: the leftmost match, [None] for [null]. *)
Fixpoint match_semver (output : string) : option string :=
  match match_here output with
  | Some m => Some m
  | None =>
      match output with
      | EmptyString => None
      | String _ output' => match_semver output'
      end
  end.

(** [snifferVersion()] once the settings are there.  [activeDocument] is the
    document of the active editor, given by the workspace folder it is in, if
    any; [stdout] is what the tool printed for [--version].  The outer
    [None] is the [TypeError] of reading [uri] off no document, the inner
    one is [undefined]. *)
Definition snifferVersion (activeDocument : option (option nat)) (stdout : string)
    : option (option string) :=
  match activeDocument with
  | None => None
  | Some None => Some None
  | Some (Some _) =>
      let output := trim stdout in
      let semverMatch := match_semver output in
      let semver := match semverMatch with
                    | Some m => m
                    | None => EmptyString
                    end in
      Some (Some semver)
  end.

End SnifferCommand.

(** ** The fixer: its command line and the formatting provider *)
Module FixerCommand.
Import JsString Errors.

(** The filter [format] puts on [resourceConf.fixerArguments]. *)
Definition additionalArguments (fixerArguments : list string) : list string :=
  filter
    (λ arg,
       SnifferCommand.lacks arg "--standard" && SnifferCommand.lacks arg "--stdin-path"
       && negb (eqb_string arg "-q") && negb (eqb_string arg "-") = true)
    fixerArguments.

(** [getArgs(document, standard, additionalArguments)] of the fixer. *)
Definition getArgs (filePath standard : string) (additionalArguments : list string)
    : list string :=
  let args := [] in
  let args := args ++ ["-q"] in
  let args := if negb (eqb_string standard EmptyString)
              then args ++ ["--standard=" +:+ dquote +:+ standard +:+ dquote]
              else args in
  let args := args ++ ["--stdin-path=" +:+ dquote +:+ filePath +:+ dquote] in
  let args := args ++ additionalArguments in
  args ++ ["-"].

(** The arguments [format] spawns the fixer with. *)
Definition lintArgs (filePath standard : string) (fixerArguments : list string)
    : list string :=
  getArgs filePath standard (additionalArguments fixerArguments).

Record Position := {
  line : nat;
  character : nat
}.

(** A range of the editor, from [range_start] to [range_end]. *)
Record Range := {
  range_start : Position;
  range_end : Position
}.

#[global] Instance Position_eq_dec : EqDecision Position.
Proof. solve_decision. Defined.

#[global] Instance Range_eq_dec : EqDecision Range.
Proof. solve_decision. Defined.

(** A document as the provider reads it: the lengths of its lines.  The
    editor keeps at least one line in a document. *)
Record TextDocument := { lineLengths : list nat }.

Definition lineCount (document : TextDocument) : nat := length (lineLengths document).

(** [document.lineAt(i).range.end]. *)
Definition lineAt_range_end (document : TextDocument) (i : nat) : Position :=
  {| line := i; character := default 0%nat (lineLengths document !! i) |}.

Definition documentFullRange (document : TextDocument) : Range :=
  {| range_start := {| line := 0; character := 0 |};
     range_end := lineAt_range_end document (lineCount document - 1) |}.

(** [range.isEqual(documentFullRange(document))]. *)
Definition isFullDocumentRange (range : Range) (document : TextDocument) : bool :=
  bool_decide (range = documentFullRange document).

Record TextEdit := {
  edit_range : Range;
  newText : string
}.

(** How the promise of the provider settles: with edits, or rejected with
    no reason. *)
Inductive ProviderResult :=
  | ProviderResolve (edits : list TextEdit)
  | ProviderReject.

(** What [window.showErrorMessage] is called with in the provider: the text
    [format] rejected with, or an error object. *)
Inductive ShownError :=
  | ShownReason (reason : string)
  | ShownErrorObject (e : Fixer.JsError).

(** [registerFixerAsDocumentProvider(document, range)], given how the promise
    of [format(document, isFullDocument)] settled.  A promise settles once:
    the [reject()] of the [catch] after a [resolve] changes nothing. *)
Definition registerFixerAsDocumentProvider (document : TextDocument) (range : Range)
    (formatted : Fixer.Outcome) : ProviderResult * list ShownError :=
  let fullRange := documentFullRange document in
  let isFullDocument := isFullDocumentRange range document in
  match formatted with
  | Fixer.Resolve text =>
      let thrown :=
        ShownErrorObject (Fixer.PlainError "PHPCBF returned an empty document") in
      if negb (bool_decide (String.length text = 0%nat))
      then (ProviderResolve [{| edit_range := fullRange; newText := text |}], [thrown])
      else (ProviderReject, [thrown])
  | Fixer.Reject err => (ProviderReject, [ShownReason err])
  | Fixer.Throw e => (ProviderReject, [ShownErrorObject e])
  end.

End FixerCommand.

(** * Vocabulary of the properties

    What the statements below are written with, and the sample inputs they
    are tried on. *)

Import JsString Errors Sniffer.

(** [sub] occurs in [s]. *)
Definition contains (s sub : string) : Prop :=
  ∃ pre post, s = pre +:+ sub +:+ post.

(** A sequence of calls of [getErrorMsg], threading the table. *)
Definition getErrorMsg_calls (calls : list (Code * ToolType))
    (table : gmap string string) : gmap string string :=
  foldl (λ t call, (getErrorMsg call.1 call.2 t).2) table calls.

(** The text [getErrorMsg] writes into entry 0 for the fixer. *)
Definition fixer_message : string := "No errors were found or all errors were fixed".

(** The text [hasNoSniffsError] looks for. *)
Definition no_sniffs : string := "No sniffs were registered".

(** A ruleset that is for phpcbf only, and a run that registered no sniffs. *)
Definition phpcbf_only_ruleset : string :=
  "<ruleset name=" +:+ dquote +:+ "Project" +:+ dquote +:+ " " +:+
  attribute "phpcbf-only" "true" +:+ ">".

(** A file system with that ruleset and nothing else. *)
Definition phpcbf_only_fs : FileSystem :=
  λ path, if eqb_string path "/project/phpcs.xml" then File phpcbf_only_ruleset else Absent.

(** What the tool prints when the ruleset leaves it nothing to run. *)
Definition no_sniffs_output : string := "ERROR: No sniffs were registered".

(** The message the handler builds from the raw output of a failed parse. *)
Definition raw_message (stdout stderr : string) (isError : bool) (errorString : string)
    : string :=
  stdout +:+ nl +:+
  (if truthy stderr then stderr +:+ nl else EmptyString) +:+
  (if isError then errorString else "Unexpected error").

(** A message at a position of a file: its line and its column count from 1,
    and are integers that a number holds exactly. *)
Definition positioned (m : PHPCSMessage) : Prop :=
  (1 ≤ msg_line m ≤ 2 ^ 53)%Z ∧ (1 ≤ msg_column m ≤ 2 ^ 53)%Z.

(** A message with no position in a file: its line or its column is below 1. *)
Definition unpositioned (m : PHPCSMessage) : Prop :=
  (msg_line m ≤ 0)%Z ∨ (msg_column m ≤ 0)%Z.

(** A diagnostic at the position of a message, counted from 0, with the
    severity of its type. *)
Definition zero_based (ERROR : string) (m : PHPCSMessage) (d : Diagnostic) : Prop :=
  range d = {| startLine := msg_line m - 1; startCharacter := msg_column m - 1;
               endLine := msg_line m - 1; endCharacter := msg_column m - 1 |} ∧
  (msg_type m = ERROR → severity d = Error) ∧
  (msg_type m ≠ ERROR → severity d = Warning).

(** A token source after [cancel()] and [dispose()], one just made, and the
    effect of [dispose()]. *)
Definition retired : CancellationTokenSource :=
  {| isCancellationRequested := true; isDisposed := true |}.

Definition fresh : CancellationTokenSource :=
  {| isCancellationRequested := false; isDisposed := false |}.

Definition disposed (t : CancellationTokenSource) : CancellationTokenSource :=
  {| isCancellationRequested := isCancellationRequested t; isDisposed := true |}.

(** The invariant of the scheduler. *)
Record scheduler_inv (c : Config) : Prop := {
  (** every token source belongs to one run, and the run at index [r] closes
      over runner [r] *)
  inv_length : length (runs c) = length (tokenSources (state c));
  inv_runner : ∀ r run b, runs c !! r = Some (run, b) → run_runner run = r;
  (** a live token source is the one the map holds for its document *)
  inv_live : ∀ r run b,
    runs c !! r = Some (run, b) → live r (state c) →
    runnerCancellations (state c) !! run_uri run = Some r;
  (** a run whose process has not closed is disposed only by cancelling *)
  inv_pending : ∀ r run t,
    runs c !! r = Some (run, false) → tokenSources (state c) !! r = Some t →
    isDisposed t = true → isCancellationRequested t = true;
  (** the map holds runners that exist *)
  inv_registered : ∀ uri r,
    runnerCancellations (state c) !! uri = Some r → r < length (tokenSources (state c))
}.

(** [s] between double quotes. *)
Definition quoted (s : string) : string := dquote +:+ s +:+ dquote.

(** A report of one file with one error at line 2, column 1. *)
Definition sample_report_text : string :=
  "{" +:+ quoted "totals" +:+ ":{" +:+ quoted "errors" +:+ ":1," +:+
  quoted "warnings" +:+ ":0," +:+ quoted "fixable" +:+ ":0}," +:+
  quoted "files" +:+ ":{" +:+ quoted "/a.php" +:+ ":{" +:+
  quoted "errors" +:+ ":1," +:+ quoted "warnings" +:+ ":0," +:+
  quoted "messages" +:+ ":[{" +:+
  quoted "message" +:+ ":" +:+ quoted "Missing file doc comment" +:+ "," +:+
  quoted "source" +:+ ":" +:+ quoted "PEAR.Commenting.FileComment.Missing" +:+ "," +:+
  quoted "severity" +:+ ":5," +:+ quoted "fixable" +:+ ":false," +:+
  quoted "type" +:+ ":" +:+ quoted "ERROR" +:+ "," +:+
  quoted "line" +:+ ":2," +:+ quoted "column" +:+ ":1}]}}}".

(** The report that text parses to. *)
Definition sample_report : PHPCSReport :=
  {| files :=
       [("/a.php",
         {| messages :=
              [{| msg_message := "Missing file doc comment";
                  msg_source := "PEAR.Commenting.FileComment.Missing";
                  msg_fixable := false; msg_type := "ERROR";
                  msg_line := 2; msg_column := 1 |}] |})] |}.

(** The message of that report. *)
Definition sample_message : PHPCSMessage :=
  {| msg_message := "Missing file doc comment";
     msg_source := "PEAR.Commenting.FileComment.Missing";
     msg_fixable := false; msg_type := "ERROR";
     msg_line := 2; msg_column := 1 |}.

(** A message at line 0, and a report with it after the sample message. *)
Definition unpositioned_message : PHPCSMessage :=
  {| msg_message := "No PHP code was found in this file";
     msg_source := "Internal.NoCodeFound";
     msg_fixable := false; msg_type := "WARNING";
     msg_line := 0; msg_column := 1 |}.

Definition unpositioned_report : PHPCSReport :=
  {| files := [("/a.php", {| messages := [sample_message; unpositioned_message] |})] |}.

Definition unpositioned_report_text : string :=
  "{" +:+ quoted "files" +:+ ":{" +:+ quoted "/a.php" +:+ ":{" +:+
  quoted "messages" +:+ ":[{" +:+
  quoted "message" +:+ ":" +:+ quoted "Missing file doc comment" +:+ "," +:+
  quoted "source" +:+ ":" +:+ quoted "PEAR.Commenting.FileComment.Missing" +:+ "," +:+
  quoted "fixable" +:+ ":false," +:+
  quoted "type" +:+ ":" +:+ quoted "ERROR" +:+ "," +:+
  quoted "line" +:+ ":2," +:+ quoted "column" +:+ ":1},{" +:+
  quoted "message" +:+ ":" +:+ quoted "No PHP code was found in this file" +:+ "," +:+
  quoted "source" +:+ ":" +:+ quoted "Internal.NoCodeFound" +:+ "," +:+
  quoted "fixable" +:+ ":false," +:+
  quoted "type" +:+ ":" +:+ quoted "WARNING" +:+ "," +:+
  quoted "line" +:+ ":0," +:+ quoted "column" +:+ ":1}]}}}".

(** [JSON.parse] at that text. *)
Definition unpositioned_parse (text : string) : ParseResult :=
  if eqb_string text unpositioned_report_text then ParseOk unpositioned_report
  else ParseThrows true "SyntaxError: Unexpected token o in JSON at position 1".

(** [JSON.parse] at the two texts used below: the report above parses, and
    text that is no JSON throws a [SyntaxError]. *)
Definition sample_parse (text : string) : ParseResult :=
  if eqb_string text sample_report_text then ParseOk sample_report
  else ParseThrows true "SyntaxError: Unexpected token o in JSON at position 1".

(** A diagnostic published by an earlier run. *)
Definition sample_published : Diagnostic :=
  {| range := {| startLine := 7; startCharacter := 4; endLine := 7; endCharacter := 4 |};
     diag_message := "Line exceeds 85 characters"; severity := Warning;
     diag_source := "phpcs" |}.

(** The run in flight for the document, with no standard resolved. *)
Definition sample_run : Run :=
  {| run_uri := "file:///a.php"; run_runner := 0;
     run_standard := EmptyString; run_showSources := false |}.

(** A document with one published diagnostic and a run in flight, the token
    of the run cancelled or not. *)
Definition sample_state (cancelled : bool) : State :=
  {| runnerCancellations := {[ "file:///a.php" := 0%nat ]};
     tokenSources := [{| isCancellationRequested := cancelled; isDisposed := cancelled |}];
     diagnosticCollection := {[ "file:///a.php" := [sample_published] ]};
     errorMessages := []; logged := [] |}.

(** A file system with no ruleset file. *)
Definition no_files : FileSystem := λ _, Absent.

(** An ASCII character that is no white space. *)
Definition is_text (c : ascii) : bool :=
  bool_decide (nat_of_ascii c < 128)%nat && negb (is_white_space c).

(** The string opens with an ASCII character that is no white space. *)
Definition opens_with_text (s : string) : bool :=
  match s with
  | EmptyString => false
  | String c _ => is_text c
  end.

(** The string holds an ASCII character that is no white space. *)
Fixpoint has_text (s : string) : bool :=
  match s with
  | EmptyString => false
  | String c s' => is_text c || has_text s'
  end.

(** The exit code [format] switches on, with what [snifferVersion()]
    returned. *)
Definition format_exitcode (version : option string) (table : gmap string string)
    (inp : Fixer.FormatInput) : Code :=
  (getMappedExitCode table version (Num <$> Fixer.status (Fixer.fixer inp)) fixer).1.

(** The message [format] got for that exit code. *)
Definition format_errorMsg (version : option string) (table : gmap string string)
    (inp : Fixer.FormatInput) : string :=
  default "undefined" (getErrorMsg (format_exitcode version table inp) fixer table).1.

(** Whether the fixer changed the text: its trimmed output is not empty and
    differs from the document. *)
Definition text_changed (inp : Fixer.FormatInput) : Prop :=
  trim (Fixer.stdout (Fixer.fixer inp)) ≠ EmptyString ∧
  trim (Fixer.stdout (Fixer.fixer inp)) ≠ Fixer.fileText inp.

(** The failure text of the no-status case for a spawn error. *)
Definition no_status_error (execError : Fixer.ConsoleError) : string :=
  if bool_decide (Fixer.code execError = "ENOENT")
  then "FIXER: " +:+ Fixer.message execError +:+ ". executablePath not found."
  else if bool_decide (Fixer.code execError = "ETIMEDOUT")
  then "FIXER: Formatting the document timed out."
  else "A general script execution error occurred.".

(** The guards of [format] let the document through. *)
Definition past_guards (inp : Fixer.FormatInput) : Prop :=
  is_Some (Fixer.workspaceFolder inp) ∧ Fixer.languageId inp = "php" ∧
  Fixer.fixerEnable inp = true.

(** The failure text of the last case when the standard is not disabled:
    the tool's message with the output, or else the spawn error, or else the
    fatal text. *)
Definition own_error_text (inp : Fixer.FormatInput) (errorMsg : string) : string :=
  let fixed := trim (Fixer.stdout (Fixer.fixer inp)) in
  if bool_decide (fixed = EmptyString) then
    match Fixer.error (Fixer.fixer inp) with
    | Fixer.error_object e => Fixer.node_internal_error e
    | _ => "FATAL: Unknown error occurred."
    end
  else ("FIXER: " +:+ errorMsg) +:+ nl +:+ fixed +:+ nl.



(** A PHP document in a workspace folder with the fixer enabled, and what the
    fixer process gave for it; [bound] is what the name [stderr] is bound
    to, if anything. *)
Definition sample_input (bound : option string) (status : option Z) (stdout : string)
    (error : Fixer.SpawnError) : Fixer.FormatInput :=
  {| Fixer.workspaceFolder := Some 0%nat;
     Fixer.languageId := "php";
     Fixer.fixerEnable := true;
     Fixer.debug := false;
     Fixer.fileText := "<?php echo 1 ;";
     Fixer.standard := "/project/phpcs.xml";
     Fixer.fixer := {| Fixer.status := status; Fixer.stdout := stdout;
                       Fixer.error := error |};
     Fixer.stderr := bound |}.

(** The byte order mark U+FEFF and the no-break space U+00A0, in UTF-8. *)
Definition byte_order_mark : string :=
  String (ascii_of_nat 239) (String (ascii_of_nat 187) (String (ascii_of_nat 191) EmptyString)).

Definition no_break_space : string :=
  String (ascii_of_nat 194) (String (ascii_of_nat 160) EmptyString).


(** ** More vocabulary *)

(** Whether a sequence of calls of [getErrorMsg] has a call for the fixer. *)
Definition has_fixer_call (calls : list (Code * ToolType)) : bool :=
  existsb (λ call, bool_decide (call.2 = fixer)) calls.

(** The statuses the message table has a message for. *)
Definition documented_status (n : Z) : Prop :=
  n ∈ [-1; 0; 1; 2; 3; 4; 5; 7; 16]%Z.

(** The provider run on what [format] gives for the document. *)
Definition provideDocumentFormattingEdits (fs : FileSystem)
    (version : option (option string))
    (table : gmap string string) (document : FixerCommand.TextDocument)
    (range : FixerCommand.Range) (inp : Fixer.FormatInput)
    : FixerCommand.ProviderResult * list FixerCommand.ShownError :=
  FixerCommand.registerFixerAsDocumentProvider document range
    (Fixer.outcome (Fixer.format fs version table inp)).

(** The error object the provider throws after it has looked at the text. *)
Definition empty_document_error : FixerCommand.ShownError :=
  FixerCommand.ShownErrorObject (Fixer.PlainError "PHPCBF returned an empty document").

(** The error thrown where [format] reads the name [stderr] and nothing is
    bound to it. *)
Definition stderr_not_defined : Fixer.JsError := Fixer.ReferenceError "stderr".

(** How many times [x] occurs in a list of arguments. *)
Definition occurrences (x : string) (args : list string) : nat :=
  length (filter (λ arg, arg = x) args).

(** An argument the sniffer's filter lets through: it mentions none of the
    options the sniffer sets itself and is neither of its flags. *)
Definition free_for_sniffer (arg : string) : Prop :=
  ¬ contains arg "--report" ∧ ¬ contains arg "--standard" ∧
  ¬ contains arg "--stdin-path" ∧ arg ≠ "-q" ∧ arg ≠ "-".

(** An argument the fixer's filter lets through. *)
Definition free_for_fixer (arg : string) : Prop :=
  ¬ contains arg "--standard" ∧ ¬ contains arg "--stdin-path" ∧
  arg ≠ "-q" ∧ arg ≠ "-".

(** The options both command lines carry for the standard, if there is one,
    and for the path of the document. *)
Definition standard_option (standard : string) : list string :=
  if bool_decide (standard = EmptyString) then []
  else ["--standard=" +:+ dquote +:+ standard +:+ dquote].

Definition stdin_path_option (filePath : string) : string :=
  "--stdin-path=" +:+ dquote +:+ filePath +:+ dquote.

(** Every character of [s] satisfies [p]. *)
Fixpoint all_chars (p : ascii → bool) (s : string) : bool :=
  match s with
  | EmptyString => true
  | String c s' => p c && all_chars p s'
  end.

(** A run of one or more digits. *)
Definition number (s : string) : Prop :=
  s ≠ EmptyString ∧ all_chars SnifferCommand.is_digit s = true.

(** Text without any digit. *)
Definition no_digit (s : string) : Prop :=
  all_chars (λ c, negb (SnifferCommand.is_digit c)) s = true.

(** What may follow a plain version: nothing, or a character that is neither
    a digit nor a minus sign. *)
Definition ends_version (post : string) : Prop :=
  match post with
  | EmptyString => True
  | String c _ => SnifferCommand.is_digit c = false ∧ c ≠ "-"%char
  end.

(** What the runner map holds, and how token sources are let go. *)
Record registry_inv (c : Config) : Prop := {
  (** a runner in the map is live and is the runner of a run of that document *)
  reg_live : ∀ uri r,
    runnerCancellations (state c) !! uri = Some r →
    live r (state c) ∧ ∃ run b, runs c !! r = Some (run, b) ∧ run_uri run = uri;
  (** a cancelled token source is disposed *)
  reg_cancelled : ∀ r t,
    tokenSources (state c) !! r = Some t →
    isCancellationRequested t = true → isDisposed t = true
}.

(** A validation of the sample document that passes the guards. *)
Definition sample_validate : Event :=
  EvValidate "file:///a.php" "php" (Some 0%nat) true EmptyString false.

(** The close of a sample run with the given output, under a 3.x tool. *)
Definition sample_close (runner : nat) (stdout : string) : Event :=
  EvClose runner no_files (Some (Num 0)) stdout EmptyString (Some "3.7.2") errorMsgs.

(** The tool that a ruleset is for when it disables [type]. *)
Definition other_tool (type : Tool) : Tool :=
  match type with phpcs => phpcbf | phpcbf => phpcs end.

(** How the disabled-standard explanation opens. *)
Definition disabled_opening (standard : string) (type : Tool) : string :=
  toUpperCase (tool_name type) +:+ " is disabled for the coding standard (" +:+
  dquote +:+ standard +:+ dquote +:+ "), and is configured to be " +:+
  toUpperCase (tool_name (other_tool type)) +:+ "-only.".

(** * Properties *)

(** ** Strings *)

Lemma startsWith_spec s p : startsWith s p = true ↔ ∃ post, s = p +:+ post.
Proof.
  revert s. induction p as [|c p IH]; intros s; simpl.
  - split; [intros _; by exists s | done].
  - destruct s as [|d s]; simpl.
    + split; [done | intros [post H]; discriminate].
    + rewrite andb_true_iff, bool_decide_eq_true, IH. split.
      * intros [-> [post ->]]. by exists post.
      * intros [post H]. injection H as -> ->. split; [done | by exists post].
Qed.

(** [includes] decides the substring relation. *)
Lemma includes_spec hay needle : includes hay needle = true ↔ contains hay needle.
Proof.
  unfold contains. induction hay as [|c hay IH]; simpl.
  - rewrite orb_false_r, startsWith_spec. split.
    + intros [post H]. by exists EmptyString, post.
    + intros [pre [post H]]. destruct pre; simpl in H; [by exists post | discriminate].
  - rewrite orb_true_iff, startsWith_spec, IH. split.
    + intros [[post H] | [pre [post H]]].
      * by exists EmptyString, post.
      * exists (String c pre), post. simpl. by rewrite H.
    + intros [pre [post H]]. destruct pre as [|d pre]; simpl in H.
      * left. by exists post.
      * right. injection H as -> ->. by exists pre, post.
Qed.

Lemma includes_false hay needle : includes hay needle = false ↔ ¬ contains hay needle.
Proof. rewrite <- includes_spec. by destruct (includes hay needle). Qed.

Lemma truthy_false s : truthy s = false ↔ s = EmptyString.
Proof.
  unfold truthy, eqb_string. by rewrite negb_false_iff, bool_decide_eq_true.
Qed.

Lemma truthy_true s : truthy s = true ↔ s ≠ EmptyString.
Proof.
  unfold truthy, eqb_string. by rewrite negb_true_iff, bool_decide_eq_false.
Qed.

Lemma eqb_string_true a b : eqb_string a b = true ↔ a = b.
Proof. unfold eqb_string. by rewrite bool_decide_eq_true. Qed.

Lemma eqb_string_false a b : eqb_string a b = false ↔ a ≠ b.
Proof. unfold eqb_string. by rewrite bool_decide_eq_false. Qed.

Lemma length_zero_empty s : String.length s = 0%nat ↔ s = EmptyString.
Proof. destruct s; simpl; split; (done || discriminate). Qed.

(** An ASCII character that is no white space does not open a white-space
    character of one, two or three bytes. *)
Lemma is_text_spec c :
  is_text c = true →
  is_white_space c = false ∧ (∀ c2, is_white_space2 c c2 = false) ∧
  (∀ c2 c3, is_white_space3 c c2 c3 = false).
Proof.
  unfold is_text, is_white_space2, is_white_space3.
  rewrite andb_true_iff, negb_true_iff, bool_decide_eq_true. intros [Hn Hc].
  split_and!; [done | |]; intros; apply bool_decide_eq_false; lia.
Qed.

(** The bytes of a white-space character are no text. *)
Lemma is_white_space_no_text c : is_white_space c = true → is_text c = false.
Proof. unfold is_text. intros ->. apply andb_false_r. Qed.

Lemma is_white_space2_no_text c1 c2 :
  is_white_space2 c1 c2 = true → is_text c1 = false ∧ is_text c2 = false.
Proof.
  unfold is_white_space2, is_text. rewrite bool_decide_eq_true. intros [H1 H2].
  split; apply andb_false_iff; left; apply bool_decide_eq_false; lia.
Qed.

Lemma is_white_space3_no_text c1 c2 c3 :
  is_white_space3 c1 c2 c3 = true →
  is_text c1 = false ∧ is_text c2 = false ∧ is_text c3 = false.
Proof.
  unfold is_white_space3, is_text. rewrite bool_decide_eq_true. intros H.
  split_and!; apply andb_false_iff; left; apply bool_decide_eq_false; lia.
Qed.

(** [trimStart] stops at text. *)
Lemma trimStart_text c s : is_text c = true → trimStart (String c s) = String c s.
Proof.
  intros Hc. destruct (is_text_spec c Hc) as (H1 & H2 & H3).
  simpl. rewrite H1. destruct s as [|c2 [|c3 s]]; by rewrite ?H2, ?H3.
Qed.


(** [trim] strips the white space outside ASCII too, and keeps what is
    inside the text. *)
Example trim_unicode :
  trim (byte_order_mark +:+ " <?php" +:+ no_break_space +:+ "echo 1;" +:+ nl +:+
        no_break_space)
  = "<?php" +:+ no_break_space +:+ "echo 1;".
Proof. vm_compute. reflexivity. Qed.

(** ** errors.ts: the exit-status translator *)

(** A version string cannot open with both generations. *)
Lemma startsWith_3_not_4 v : startsWith v "3." = true → startsWith v "4." = false.
Proof.
  destruct v as [|c v]; simpl; [done |].
  rewrite andb_true_iff, bool_decide_eq_true. intros [<- _]. done.
Qed.

(** With a 3.x version the result is a lookup in the 3.x table, adjusted for
    the fixer. *)
Lemma getMappedExitCode_3x table v code type :
  startsWith v "3." = true →
  getMappedExitCode table (Some v) code type =
    (default (default (Str "-1") code)
       (match type with
        | fixer => <["2" := Num 5]> (<["1" := Num 0]> status3x)
        | sniffer => status3x
        end !! propertyKey (default (Str "-1") code)), []).
Proof.
  intros H3. unfold getMappedExitCode.
  rewrite (startsWith_3_not_4 _ H3), H3. done.
Qed.

(** C1. With a legacy (3.x) tool, [getMappedExitCode] in sniffer mode sends
    0 to 0 (no errors), 1 to 2 (non-auto-fixable), 2 to 1 (auto-fixable),
    3 to 16 (processing error) and a missing status to the sentinel '-1';
    in fixer mode it does the same except that 1 goes to 0 (no errors) and
    2 goes to 5 (failed to fix some errors). *)
Theorem getMappedExitCode_legacy table v :
  startsWith v "3." = true →
  let mapped code type := (getMappedExitCode table (Some v) code type).1 in
  (mapped (Some (Num 0)) sniffer = Num 0 ∧
   mapped (Some (Num 1)) sniffer = Num 2 ∧
   mapped (Some (Num 2)) sniffer = Num 1 ∧
   mapped (Some (Num 3)) sniffer = Num 16 ∧
   mapped None sniffer = Str "-1" ∧
   mapped (Some (Str "-1")) sniffer = Str "-1") ∧
  (mapped (Some (Num 0)) fixer = Num 0 ∧
   mapped (Some (Num 1)) fixer = Num 0 ∧
   mapped (Some (Num 2)) fixer = Num 5 ∧
   mapped (Some (Num 3)) fixer = Num 16 ∧
   mapped None fixer = Str "-1" ∧
   mapped (Some (Str "-1")) fixer = Str "-1").
Proof.
  intros H3 mapped. subst mapped. cbv beta.
  rewrite !(getMappedExitCode_3x table v _ _ H3).
  vm_compute. repeat split.
Qed.

(** C1 at version 3.7.2. *)
Lemma getMappedExitCode_legacy_witness :
  let mapped code type := (getMappedExitCode errorMsgs (Some "3.7.2") code type).1 in
  (mapped (Some (Num 0)) sniffer = Num 0 ∧
   mapped (Some (Num 1)) sniffer = Num 2 ∧
   mapped (Some (Num 2)) sniffer = Num 1 ∧
   mapped (Some (Num 3)) sniffer = Num 16 ∧
   mapped None sniffer = Str "-1" ∧
   mapped (Some (Str "-1")) sniffer = Str "-1") ∧
  (mapped (Some (Num 0)) fixer = Num 0 ∧
   mapped (Some (Num 1)) fixer = Num 0 ∧
   mapped (Some (Num 2)) fixer = Num 5 ∧
   mapped (Some (Num 3)) fixer = Num 16 ∧
   mapped None fixer = Str "-1" ∧
   mapped (Some (Str "-1")) fixer = Str "-1").
Proof. apply (getMappedExitCode_legacy errorMsgs "3.7.2"). reflexivity. Defined.

(** With a 4.x tool the codes pass through; a missing status becomes the
    number -1, the value [map4xStatusFromErrors] holds under the key '-1'. *)
Example getMappedExitCode_current :
  getMappedExitCode errorMsgs (Some "4.0.1") (Some (Num 16)) sniffer = (Num 16, []) ∧
  getMappedExitCode errorMsgs (Some "4.0.1") (Some (Num 5)) fixer = (Num 5, []) ∧
  getMappedExitCode errorMsgs (Some "4.0.1") None fixer = (Num (-1), []).
Proof. vm_compute. repeat split. Qed.

(** A code outside the table, and any code under a version that is neither
    3.x nor 4.x, comes back as it is. *)
Example getMappedExitCode_unmapped :
  getMappedExitCode errorMsgs (Some "3.7.2") (Some (Num 255)) sniffer = (Num 255, []) ∧
  getMappedExitCode errorMsgs (Some EmptyString) (Some (Num 1)) sniffer = (Num 1, []).
Proof. vm_compute. repeat split. Qed.

(** C9. When the version of the tool cannot be determined,
    [getMappedExitCode] returns the code it was given, with the sentinel '-1'
    in place of a missing code, and logs that the version is unknown; it
    gives a result for every code and both tools. *)
Theorem getMappedExitCode_unknown_version table code type :
  getMappedExitCode table None code type =
    (match code with Some c => c | None => Str "-1" end,
     [LogError "Unable to determine sniffer version"]).
Proof. unfold getMappedExitCode. by destruct code. Qed.

(** ** errors.ts: the message table *)

(** Once entry 0 holds the fixer's message, no call changes it. *)
Lemma getErrorMsg_keeps_fixer_message status type table :
  table !! "0" = Some fixer_message →
  (getErrorMsg status type table).2 !! "0" = Some fixer_message.
Proof.
  intros H. destruct type; simpl; [apply lookup_insert_eq | done].
Qed.

Lemma getErrorMsg_calls_keep_fixer_message calls table :
  table !! "0" = Some fixer_message →
  getErrorMsg_calls calls table !! "0" = Some fixer_message.
Proof.
  revert table. induction calls as [|[status type] calls IH]; intros table H; [done |].
  apply IH. by apply getErrorMsg_keeps_fixer_message.
Qed.

Lemma getErrorMsg_calls_app calls1 calls2 table :
  getErrorMsg_calls (calls1 ++ calls2) table =
    getErrorMsg_calls calls2 (getErrorMsg_calls calls1 table).
Proof. apply foldl_app. Qed.

(** C10. [getErrorMsg] is not a function of its arguments alone: on the
    table as initialised, [getErrorMsg(0, 'sniffer')] gives 'No errors were
    found', and so it does after any calls for the sniffer only; but after any
    sequence of calls that has one call for the fixer in it, whatever the
    status asked for and whatever calls come before and after, the same call
    gives 'No errors were found or all errors were fixed'. *)
Theorem getErrorMsg_depends_on_earlier_calls :
  (∀ statuses : list Code,
     (getErrorMsg (Num 0) sniffer
        (getErrorMsg_calls ((λ st, (st, sniffer)) <$> statuses) errorMsgs)).1
     = Some "No errors were found") ∧
  (∀ (before after : list (Code * ToolType)) (status : Code),
     (getErrorMsg (Num 0) sniffer
        (getErrorMsg_calls (before ++ (status, fixer) :: after) errorMsgs)).1
     = Some "No errors were found or all errors were fixed").
Proof.
  split.
  - intros statuses.
    assert (getErrorMsg_calls ((λ st, (st, sniffer)) <$> statuses) errorMsgs = errorMsgs)
      as ->; [| by vm_compute].
    induction statuses as [|st statuses IH]; [done | apply IH].
  - intros before after status.
    rewrite getErrorMsg_calls_app. simpl.
    change (getErrorMsg_calls ((status, fixer) :: after) ?t)
      with (getErrorMsg_calls after (getErrorMsg status fixer t).2).
    apply getErrorMsg_calls_keep_fixer_message.
    simpl. apply lookup_insert_eq.
Qed.

(** ** errors.ts: the disabled-standard detector *)

Lemma hasNoSniffsError_spec stdout stderr :
  hasNoSniffsError stdout stderr = true ↔
  contains stdout no_sniffs ∨ contains stderr no_sniffs.
Proof.
  unfold hasNoSniffsError. by rewrite orb_true_iff, !includes_spec.
Qed.

Lemma some_included_spec content attrs :
  some_included content attrs = true ↔ ∃ attr, attr ∈ attrs ∧ contains content attr.
Proof.
  unfold some_included. rewrite existsb_exists. split.
  - intros [attr [Hin H]]. exists attr.
    split; [by apply list_elem_of_In | by apply includes_spec].
  - intros [attr [Hin H]]. exists attr.
    split; [by apply list_elem_of_In | by apply includes_spec].
Qed.

(** The detector on a readable ruleset with a non-empty path. *)
Lemma isStandardDisabled_file fs standard type stdout stderr content :
  standard ≠ EmptyString →
  fs standard = File content →
  isStandardDisabled fs standard type stdout stderr =
    (some_included content (attributes type) && hasNoSniffsError stdout stderr, []).
Proof.
  intros Hne Hfs. unfold isStandardDisabled.
  rewrite (proj2 (truthy_true standard) Hne). simpl.
  rewrite bool_decide_eq_false_2 by by rewrite length_zero_empty.
  unfold existsSync, readFileSync. rewrite Hfs.
  by destruct (some_included _ _ && _).
Qed.

Lemma isStandardDisabled_empty fs type stdout stderr :
  isStandardDisabled fs EmptyString type stdout stderr = (false, []).
Proof. done. Qed.

Lemma isStandardDisabled_absent fs standard type stdout stderr :
  fs standard = Absent →
  isStandardDisabled fs standard type stdout stderr = (false, []).
Proof.
  intros Hfs. unfold isStandardDisabled, existsSync. rewrite Hfs.
  by destruct (_ || _).
Qed.

Lemma isStandardDisabled_unreadable fs standard type stdout stderr :
  standard ≠ EmptyString →
  fs standard = Unreadable →
  isStandardDisabled fs standard type stdout stderr =
    (false, [LogError ("Could not read standard file: " +:+ standard)]).
Proof.
  intros Hne Hfs. unfold isStandardDisabled.
  rewrite (proj2 (truthy_true standard) Hne). simpl.
  rewrite bool_decide_eq_false_2 by by rewrite length_zero_empty.
  unfold existsSync, readFileSync. by rewrite Hfs.
Qed.

(** C6, as stated, fails where it has the read failure logged for an absent
    ruleset file: at a path where there is no file, [existsSync] answers
    false, the read is skipped, and the detector answers false with nothing
    logged. *)
Lemma isStandardDisabled_absent_counterexample :
  existsSync no_files "/project/phpcs.xml" = false ∧
  isStandardDisabled no_files "/project/phpcs.xml" phpcs no_sniffs_output EmptyString
    = (false, []).
Proof. vm_compute. split; reflexivity. Qed.

(** C6, amended. [isStandardDisabled] answers true exactly when the path of
    the standard is not empty, the ruleset file is there and readable and
    holds one of the attributes that disable the tool asked about (for phpcs:
    phpcs-only set to false or phpcbf-only set to true; for phpcbf: phpcs-only
    set to true or phpcbf-only set to false), and stdout or stderr holds 'No
    sniffs were registered'.  A file that is absent gives false and nothing
    is logged; a file that is there and cannot be read gives false and the
    failure is logged. *)
Theorem isStandardDisabled_iff fs standard type stdout stderr :
  ((isStandardDisabled fs standard type stdout stderr).1 = true ↔
     standard ≠ EmptyString ∧
     (∃ content, fs standard = File content ∧
        match type with
        | phpcs => contains content (attribute "phpcs-only" "false") ∨
                   contains content (attribute "phpcbf-only" "true")
        | phpcbf => contains content (attribute "phpcs-only" "true") ∨
                    contains content (attribute "phpcbf-only" "false")
        end) ∧
     (contains stdout "No sniffs were registered" ∨
      contains stderr "No sniffs were registered")) ∧
  (fs standard = Absent →
     isStandardDisabled fs standard type stdout stderr = (false, [])) ∧
  (fs standard = Unreadable →
     (isStandardDisabled fs standard type stdout stderr).1 = false ∧
     (standard ≠ EmptyString →
        (isStandardDisabled fs standard type stdout stderr).2 =
          [LogError ("Could not read standard file: " +:+ standard)])).
Proof.
  assert (Hattrs : ∀ content,
    some_included content (attributes type) = true ↔
    match type with
    | phpcs => contains content (attribute "phpcs-only" "false") ∨
               contains content (attribute "phpcbf-only" "true")
    | phpcbf => contains content (attribute "phpcs-only" "true") ∨
                contains content (attribute "phpcbf-only" "false")
    end).
  { intros content. unfold some_included.
    destruct type; simpl; by rewrite orb_false_r, orb_true_iff, !includes_spec. }
  split; [| split].
  - destruct (decide (standard = EmptyString)) as [-> | Hne].
    { rewrite isStandardDisabled_empty. simpl. split; [done | by intros [? _]]. }
    destruct (fs standard) as [| | content] eqn:Hfs.
    + rewrite isStandardDisabled_absent by done. simpl.
      split; [done | by intros (_ & [content [? _]] & _)].
    + rewrite isStandardDisabled_unreadable by done. simpl.
      split; [done | by intros (_ & [content [? _]] & _)].
    + rewrite (isStandardDisabled_file _ _ _ _ _ content) by done. simpl.
      rewrite andb_true_iff, Hattrs, hasNoSniffsError_spec. split.
      * intros [Ha Hn]. split; [done | split; [by exists content | done]].
      * intros (_ & [content' [Heq Ha]] & Hn). by injection Heq as <-.
  - apply isStandardDisabled_absent.
  - intros Hfs. destruct (decide (standard = EmptyString)) as [-> | Hne].
    + by rewrite isStandardDisabled_empty.
    + by rewrite isStandardDisabled_unreadable.
Qed.

(** C5, as stated, fails: on a ruleset that holds the attribute phpcbf-only
    set to true, with output that holds 'No sniffs were registered', the
    detector answers false for phpcbf and true for phpcs. *)
Lemma isStandardDisabled_phpcbf_only_counterexample :
  includes phpcbf_only_ruleset (attribute "phpcbf-only" "true") = true ∧
  includes no_sniffs_output "No sniffs were registered" = true ∧
  (isStandardDisabled phpcbf_only_fs "/project/phpcs.xml" phpcbf
     no_sniffs_output EmptyString).1 = false ∧
  (isStandardDisabled phpcbf_only_fs "/project/phpcs.xml" phpcs
     no_sniffs_output EmptyString).1 = true.
Proof. vm_compute. repeat split. Qed.

(** C5, amended. For a readable ruleset file under a non-empty path whose
    content holds the attribute phpcbf-only set to true, and tool output that
    holds 'No sniffs were registered', [isStandardDisabled] answers true when
    asked about the validator ('phpcs'); asked about the fixer ('phpcbf') it
    answers false, provided the content holds neither phpcs-only set to true
    nor phpcbf-only set to false. *)
Theorem isStandardDisabled_phpcbf_only fs standard content stdout stderr :
  standard ≠ EmptyString →
  fs standard = File content →
  contains content (attribute "phpcbf-only" "true") →
  contains stdout "No sniffs were registered" ∨
  contains stderr "No sniffs were registered" →
  (isStandardDisabled fs standard phpcs stdout stderr).1 = true ∧
  (¬ contains content (attribute "phpcs-only" "true") →
   ¬ contains content (attribute "phpcbf-only" "false") →
   (isStandardDisabled fs standard phpcbf stdout stderr).1 = false).
Proof.
  intros Hne Hfs Hattr Hout.
  rewrite !(isStandardDisabled_file fs standard _ stdout stderr content) by done.
  simpl. rewrite (proj2 (hasNoSniffsError_spec stdout stderr) Hout), !andb_true_r.
  split.
  - rewrite (proj2 (includes_spec _ _) Hattr). by rewrite orb_true_r.
  - intros H1 H2.
    by rewrite (proj2 (includes_false _ _) H1), (proj2 (includes_false _ _) H2).
Qed.

(** C5, amended, on the sample ruleset. *)
Lemma isStandardDisabled_phpcbf_only_witness :
  (isStandardDisabled phpcbf_only_fs "/project/phpcs.xml" phpcs
     no_sniffs_output EmptyString).1 = true ∧
  (isStandardDisabled phpcbf_only_fs "/project/phpcs.xml" phpcbf
     no_sniffs_output EmptyString).1 = false.
Proof.
  destruct (isStandardDisabled_phpcbf_only phpcbf_only_fs "/project/phpcs.xml"
              phpcbf_only_ruleset no_sniffs_output EmptyString) as [H1 H2].
  - discriminate.
  - reflexivity.
  - apply includes_spec. vm_compute. reflexivity.
  - left. apply includes_spec. vm_compute. reflexivity.
  - split; [exact H1 |].
    apply H2; apply includes_false; vm_compute; reflexivity.
Defined.

(** ** The sniffer: the completion handler *)

Lemma app_string_assoc (a b c : string) : (a +:+ b) +:+ c = a +:+ b +:+ c.
Proof.
  induction a as [|x a IH]; [done |].
  change (String x ((a +:+ b) +:+ c) = String x (a +:+ b +:+ c)). by rewrite IH.
Qed.

Section HandlerFacts.

Variable JSON_parse : string → ParseResult.
Variable PHPCSMessageType_ERROR : string.

Abbreviation on_close := (on_close JSON_parse PHPCSMessageType_ERROR).
Abbreviation diagnostic_of := (diagnostic_of PHPCSMessageType_ERROR).
Abbreviation try_block := (try_block JSON_parse PHPCSMessageType_ERROR).

(** What the handler leaves when it takes its early return. *)
Lemma on_close_early fs run stdout stderr s :
  token_cancelled (run_runner run) s || negb (truthy stdout) = true →
  let disabled := (isStandardDisabled fs (run_standard run) phpcs stdout stderr).1 in
  let message := getStandardDisabledErrorMsg (run_standard run) phpcs stdout stderr in
  let s' := (on_close fs run stdout stderr s).2 in
  (on_close fs run stdout stderr s).1 = Resolved ∧
  diagnosticCollection s' = diagnosticCollection s ∧
  runnerCancellations s' = runnerCancellations s ∧
  tokenSources s' = tokenSources s ∧
  errorMessages s' = errorMessages s ++ (if disabled then [message] else []).
Proof.
  intros H. unfold Sniffer.on_close. rewrite H.
  destruct (isStandardDisabled _ _ _ _ _) as [[] entries]; simpl;
    by rewrite ?app_nil_r.
Qed.

(** C3. When the token of a run is cancelled by the time its process closes,
    the handler resolves the run and returns before it sets any diagnostics:
    the diagnostic collection, the runner map and the token sources are as
    they were.  The output of the run is still looked at for the disabled
    standard, and the explanation is shown when the detector answers true. *)
Theorem cancelled_run_publishes_nothing fs run stdout stderr s :
  token_cancelled (run_runner run) s = true →
  let disabled := (isStandardDisabled fs (run_standard run) phpcs stdout stderr).1 in
  let message := getStandardDisabledErrorMsg (run_standard run) phpcs stdout stderr in
  let s' := (on_close fs run stdout stderr s).2 in
  (on_close fs run stdout stderr s).1 = Resolved ∧
  diagnosticCollection s' = diagnosticCollection s ∧
  runnerCancellations s' = runnerCancellations s ∧
  tokenSources s' = tokenSources s ∧
  errorMessages s' = errorMessages s ++ (if disabled then [message] else []).
Proof.
  intros H. apply on_close_early. by rewrite H.
Qed.

(** *** Numbers and positions *)

(** Past 2^53 a number holds every second integer, then every fourth: the
    subtraction of 1 rounds. *)
Example minus_one_rounds :
  minus_one (2 ^ 53) = (2 ^ 53 - 1)%Z ∧
  minus_one (2 ^ 53 + 2) = (2 ^ 53)%Z ∧
  minus_one (2 ^ 53 + 4) = (2 ^ 53 + 4)%Z ∧
  minus_one (2 ^ 54 + 4) = (2 ^ 54 + 4)%Z.
Proof. vm_compute. repeat split. Qed.

Lemma round_double_exact x : (Z.abs x ≤ 2 ^ 53)%Z → round_double x = x.
Proof. intros H. unfold round_double. by rewrite (proj2 (Z.leb_le _ _) H). Qed.

(** Rounding keeps a negative number negative. *)
Lemma round_double_neg x : (x < 0)%Z → (round_double x < 0)%Z.
Proof.
  intros Hx. unfold round_double.
  destruct (Z.abs x <=? 2 ^ 53)%Z eqn:E; [done |].
  apply Z.leb_gt in E. set (a := Z.abs x) in *. set (k := (Z.log2 a - 52)%Z).
  assert (0 < a)%Z as Ha by lia.
  assert (53 ≤ Z.log2 a)%Z as Hlog by (apply Z.log2_le_pow2; lia).
  assert (0 ≤ k)%Z as Hk by (subst k; lia).
  assert (2 ^ k ≤ a)%Z as Hpow.
  { transitivity (2 ^ Z.log2 a)%Z.
    - apply Z.pow_le_mono_r; subst k; lia.
    - by apply Z.log2_spec. }
  assert (0 < 2 ^ k)%Z as Hpos by (apply Z.pow_pos_nonneg; lia).
  assert (1 ≤ Z.shiftr a k)%Z as Hq.
  { rewrite Z.shiftr_div_pow2 by done. apply Z.div_le_lower_bound; lia. }
  match goal with
  | |- context [Z.shiftl (if ?b then ?u else ?v) k] => set (q' := if b then u else v)
  end.
  assert (1 ≤ q')%Z as Hq' by (subst q'; destruct (_ || _); lia).
  rewrite Z.shiftl_mul_pow2 by done. rewrite Z.sgn_neg by done. nia.
Qed.

Lemma minus_one_exact n : (1 ≤ n ≤ 2 ^ 53)%Z → minus_one n = (n - 1)%Z.
Proof. intros H. apply round_double_exact. lia. Qed.

Lemma minus_one_neg n : (n ≤ 0)%Z → (minus_one n < 0)%Z.
Proof. intros H. apply round_double_neg. lia. Qed.

Lemma new_Range_accepts l c :
  (0 ≤ l)%Z → (0 ≤ c)%Z →
  new_Range l c l c = inr {| startLine := l; startCharacter := c;
                             endLine := l; endCharacter := c |}.
Proof. intros Hl Hc. unfold new_Range. by rewrite !bool_decide_eq_false_2 by lia. Qed.

Lemma new_Range_refuses l c :
  (l < 0)%Z ∨ (c < 0)%Z → ∃ errorString, new_Range l c l c = inl errorString.
Proof. intros H. unfold new_Range. repeat case_bool_decide; eauto. lia. Qed.

(** The callback on a message at a position: a diagnostic at that position,
    counted from 0. *)
Lemma diagnostic_of_positioned showSources m :
  positioned m →
  ∃ d, diagnostic_of showSources m = inr d ∧ zero_based PHPCSMessageType_ERROR m d.
Proof.
  intros [Hl Hc]. unfold Sniffer.diagnostic_of.
  rewrite !minus_one_exact, new_Range_accepts by lia.
  eexists. split; [done |]. split; [done |]. simpl.
  destruct (eqb_string _ _) eqn:E.
  - apply eqb_string_true in E. done.
  - apply eqb_string_false in E. done.
Qed.

(** The callback on a message with no position: [new Range] throws. *)
Lemma diagnostic_of_unpositioned showSources m :
  unpositioned m → ∃ errorString, diagnostic_of showSources m = inl errorString.
Proof.
  intros H. unfold Sniffer.diagnostic_of.
  destruct (new_Range_refuses (minus_one (msg_line m)) (minus_one (msg_column m)))
    as [errorString ->]; [| by eexists].
  destruct H as [H | H]; [left | right]; by apply minus_one_neg.
Qed.

(** The loops on messages that all have a position: one diagnostic for each,
    nothing thrown. *)
Lemma push_diagnostics_positioned showSources ms :
  Forall positioned ms →
  ∃ diagnostics,
    push_diagnostics PHPCSMessageType_ERROR showSources ms = (diagnostics, None) ∧
    Forall2 (zero_based PHPCSMessageType_ERROR) ms diagnostics.
Proof.
  induction 1 as [|m ms Hm _ (diagnostics & IH & Hall)]; simpl.
  - by exists [].
  - destruct (diagnostic_of_positioned showSources m Hm) as (d & -> & Hd).
    rewrite IH. exists (d :: diagnostics). split; [done | by constructor].
Qed.

(** The loops end at the first message with no position: the diagnostics of
    the messages before it were pushed. *)
Lemma push_diagnostics_unpositioned showSources before m after :
  Forall positioned before → unpositioned m →
  ∃ diagnostics errorString,
    push_diagnostics PHPCSMessageType_ERROR showSources (before ++ m :: after)
      = (diagnostics, Some errorString) ∧
    Forall2 (zero_based PHPCSMessageType_ERROR) before diagnostics.
Proof.
  intros Hbefore Hm. induction Hbefore as [|m' ms Hm' _ (diagnostics & e & IH & Hall)]; simpl.
  - destruct (diagnostic_of_unpositioned showSources m Hm) as [errorString ->].
    by exists [], errorString.
  - destruct (diagnostic_of_positioned showSources m' Hm') as (d & -> & Hd).
    rewrite IH. exists (d :: diagnostics), e. split; [done | by constructor].
Qed.

(** *** The handler past its early return *)

(** Past the early return the handler publishes the diagnostics of the [try]
    block, whether the block threw or not; it resolves the run when nothing
    was thrown, and otherwise rejects it with the message it shows. *)
Lemma on_close_late fs run stdout stderr s :
  token_cancelled (run_runner run) s = false →
  stdout ≠ EmptyString →
  let disabled := (isStandardDisabled fs (run_standard run) phpcs stdout stderr).1 in
  let tried := try_block (run_showSources run) stdout in
  let s' := (on_close fs run stdout stderr s).2 in
  diagnosticCollection s' = <[run_uri run := tried.1]> (diagnosticCollection s) ∧
  runnerCancellations s' = delete (run_uri run) (runnerCancellations s) ∧
  tokenSources s' =
    alter (λ t, {| isCancellationRequested := isCancellationRequested t;
                   isDisposed := true |}) (run_runner run) (tokenSources s) ∧
  match tried.2 with
  | None =>
      (on_close fs run stdout stderr s).1 = Resolved ∧
      errorMessages s' = errorMessages s
  | Some (isError, errorString) =>
      let message :=
        if disabled
        then getStandardDisabledErrorMsg (run_standard run) phpcs stdout stderr
        else raw_message stdout stderr isError errorString in
      (on_close fs run stdout stderr s).1 = Rejected message ∧
      errorMessages s' = errorMessages s ++ [message]
  end.
Proof.
  intros Hc Hne. unfold Sniffer.on_close.
  rewrite Hc, (proj2 (truthy_true stdout) Hne). simpl.
  destruct (Sniffer.try_block _ _ _ _)
    as [diagnostics [[isError errorString]|]] eqn:Htry; simpl; [| done].
  destruct (isStandardDisabled _ _ _ _ _) as [disabled entries]. simpl.
  assert ((if isError
           then (if truthy stderr
                 then (EmptyString +:+ stdout +:+ nl) +:+ stderr +:+ nl
                 else EmptyString +:+ stdout +:+ nl) +:+ errorString
           else (if truthy stderr
                 then (EmptyString +:+ stdout +:+ nl) +:+ stderr +:+ nl
                 else EmptyString +:+ stdout +:+ nl) +:+ "Unexpected error")
          = raw_message stdout stderr isError errorString) as ->.
  { unfold raw_message. change (EmptyString +:+ stdout +:+ nl) with (stdout +:+ nl).
    destruct isError, (truthy stderr); by rewrite ?app_string_assoc. }
  done.
Qed.

(** What the handler leaves when the parse throws. *)
Lemma on_close_throws fs run stdout stderr s isError errorString :
  token_cancelled (run_runner run) s = false →
  stdout ≠ EmptyString →
  JSON_parse stdout = ParseThrows isError errorString →
  let disabled := (isStandardDisabled fs (run_standard run) phpcs stdout stderr).1 in
  let message :=
    if disabled
    then getStandardDisabledErrorMsg (run_standard run) phpcs stdout stderr
    else raw_message stdout stderr isError errorString in
  let s' := (on_close fs run stdout stderr s).2 in
  (on_close fs run stdout stderr s).1 = Rejected message ∧
  errorMessages s' = errorMessages s ++ [message] ∧
  diagnosticCollection s' = <[run_uri run := []]> (diagnosticCollection s) ∧
  runnerCancellations s' = delete (run_uri run) (runnerCancellations s) ∧
  tokenSources s' =
    alter (λ t, {| isCancellationRequested := isCancellationRequested t;
                   isDisposed := true |}) (run_runner run) (tokenSources s).
Proof.
  intros Hc Hne Hp.
  destruct (on_close_late fs run stdout stderr s Hc Hne) as (Hd & Hm & Ht & Hs).
  unfold Sniffer.try_block in Hd, Hs. rewrite Hp in Hd, Hs. simpl in Hd, Hs.
  destruct Hs as [Hs1 Hs2]. done.
Qed.

(** What the handler leaves when the report parses and every message has a
    position. *)
Lemma on_close_parsed fs run stdout stderr s report :
  token_cancelled (run_runner run) s = false →
  stdout ≠ EmptyString →
  JSON_parse stdout = ParseOk report →
  Forall positioned (report_messages report) →
  ∃ diagnostics,
    on_close fs run stdout stderr s = (Resolved, publish run diagnostics s) ∧
    Forall2 (zero_based PHPCSMessageType_ERROR) (report_messages report) diagnostics.
Proof.
  intros Hc Hne Hp Hall.
  destruct (push_diagnostics_positioned (run_showSources run) _ Hall)
    as (diagnostics & Hpush & Hzero).
  exists diagnostics. split; [| done]. unfold Sniffer.on_close, Sniffer.try_block.
  by rewrite Hc, (proj2 (truthy_true stdout) Hne), Hp, Hpush.
Qed.

(** What the handler leaves when the report parses and one of its messages
    has no position. *)
Lemma on_close_refused fs run stdout stderr s report before m after :
  token_cancelled (run_runner run) s = false →
  stdout ≠ EmptyString →
  JSON_parse stdout = ParseOk report →
  report_messages report = before ++ m :: after →
  Forall positioned before → unpositioned m →
  ∃ diagnostics errorString,
    let disabled := (isStandardDisabled fs (run_standard run) phpcs stdout stderr).1 in
    let message :=
      if disabled
      then getStandardDisabledErrorMsg (run_standard run) phpcs stdout stderr
      else raw_message stdout stderr true errorString in
    let s' := (on_close fs run stdout stderr s).2 in
    (on_close fs run stdout stderr s).1 = Rejected message ∧
    errorMessages s' = errorMessages s ++ [message] ∧
    diagnosticCollection s' = <[run_uri run := diagnostics]> (diagnosticCollection s) ∧
    Forall2 (zero_based PHPCSMessageType_ERROR) before diagnostics.
Proof.
  intros Hc Hne Hp Hms Hbefore Hm.
  destruct (push_diagnostics_unpositioned (run_showSources run) before m after Hbefore Hm)
    as (diagnostics & errorString & Hpush & Hzero).
  exists diagnostics, errorString.
  destruct (on_close_late fs run stdout stderr s Hc Hne) as (Hd & _ & _ & Hs).
  unfold Sniffer.try_block in Hd, Hs. rewrite Hp, Hms, Hpush in Hd, Hs. simpl in Hd, Hs.
  destruct Hs as [Hs1 Hs2]. done.
Qed.

(** C4, amended. When the token of a run is not cancelled and [JSON.parse]
    throws on its non-empty stdout, the run is rejected with a message that
    is shown to the user: the raw stdout and stderr followed by the error,
    or the disabled-standard explanation when the detector answers true; and
    the document's entry in the diagnostic collection is set to the empty
    list.  When the text parses and a message of the report has no position
    (its line or column is below 1, which the editor refuses), the run is
    rejected in the same way, and the document's entry is set to the
    diagnostics of the messages before that one.  The entries of other
    documents stay as they are. *)
Theorem malformed_report_rejects_and_clears fs run stdout stderr s :
  token_cancelled (run_runner run) s = false →
  stdout ≠ EmptyString →
  let disabled := (isStandardDisabled fs (run_standard run) phpcs stdout stderr).1 in
  let shown isError errorString :=
    if disabled
    then getStandardDisabledErrorMsg (run_standard run) phpcs stdout stderr
    else raw_message stdout stderr isError errorString in
  let s' := (on_close fs run stdout stderr s).2 in
  (∀ isError errorString,
     JSON_parse stdout = ParseThrows isError errorString →
     (on_close fs run stdout stderr s).1 = Rejected (shown isError errorString) ∧
     errorMessages s' = errorMessages s ++ [shown isError errorString] ∧
     diagnosticCollection s' !! run_uri run = Some []) ∧
  (∀ report before m after,
     JSON_parse stdout = ParseOk report →
     report_messages report = before ++ m :: after →
     Forall positioned before → unpositioned m →
     ∃ diagnostics errorString,
       (on_close fs run stdout stderr s).1 = Rejected (shown true errorString) ∧
       errorMessages s' = errorMessages s ++ [shown true errorString] ∧
       diagnosticCollection s' !! run_uri run = Some diagnostics ∧
       Forall2 (zero_based PHPCSMessageType_ERROR) before diagnostics) ∧
  (∀ uri, uri ≠ run_uri run →
     diagnosticCollection s' !! uri = diagnosticCollection s !! uri).
Proof.
  intros Hc Hne. cbv zeta. split_and!.
  - intros isError errorString Hp.
    destruct (on_close_throws fs run stdout stderr s isError errorString)
      as (H1 & H2 & H3 & _); [done.. |].
    rewrite H1, H2, H3. split_and!; [done | done | apply lookup_insert_eq].
  - intros report before m after Hp Hms Hbefore Hm.
    destruct (on_close_refused fs run stdout stderr s report before m after)
      as (diagnostics & errorString & H1 & H2 & H3 & H4); [done.. |].
    exists diagnostics, errorString. rewrite H1, H2, H3.
    split_and!; [done | done | apply lookup_insert_eq | done].
  - intros uri Huri.
    destruct (on_close_late fs run stdout stderr s Hc Hne) as (-> & _).
    by rewrite lookup_insert_ne.
Qed.

(** C8. When a run is not cancelled and its non-empty stdout parses to a
    report whose messages all have a position (line and column from 1 on),
    the run is resolved and the diagnostics published for the document are,
    message by message and in the order of the report, at line [line - 1]
    and column [column - 1] (start and end alike), with severity Error when
    the type of the message is ERROR and Warning when it is not. *)
Theorem published_findings_are_zero_based fs run stdout stderr s report :
  token_cancelled (run_runner run) s = false →
  stdout ≠ EmptyString →
  JSON_parse stdout = ParseOk report →
  Forall (λ m, (1 ≤ msg_line m ≤ 2 ^ 53)%Z ∧ (1 ≤ msg_column m ≤ 2 ^ 53)%Z)
    (flat_map (λ file, messages file.2) (files report)) →
  (on_close fs run stdout stderr s).1 = Resolved ∧
  ∃ diagnostics,
    diagnosticCollection (on_close fs run stdout stderr s).2 !! run_uri run
      = Some diagnostics ∧
    Forall2
      (λ m d,
         range d = {| startLine := msg_line m - 1; startCharacter := msg_column m - 1;
                      endLine := msg_line m - 1; endCharacter := msg_column m - 1 |} ∧
         (msg_type m = PHPCSMessageType_ERROR → severity d = Error) ∧
         (msg_type m ≠ PHPCSMessageType_ERROR → severity d = Warning))
      (flat_map (λ file, messages file.2) (files report)) diagnostics.
Proof.
  intros Hc Hne Hp Hall.
  destruct (on_close_parsed fs run stdout stderr s report Hc Hne Hp Hall)
    as (diagnostics & -> & Hzero).
  split; [done |]. exists diagnostics. split; [apply lookup_insert_eq | done].
Qed.

End HandlerFacts.

(** ** The sniffer: one live runner per document *)

Lemma retire_oldRunner_lookup uri s r :
  tokenSources (retire_oldRunner uri s) !! r =
    match runnerCancellations s !! uri with
    | Some oldRunner =>
        if decide (r = oldRunner) then (λ _, retired) <$> tokenSources s !! r
        else tokenSources s !! r
    | None => tokenSources s !! r
    end.
Proof.
  unfold retire_oldRunner. destruct (runnerCancellations s !! uri) as [old|]; [| done].
  simpl. destruct (decide (r = old)) as [-> | Hne].
  - rewrite !list_lookup_alter_eq. by destruct (tokenSources s !! old).
  - by rewrite !list_lookup_alter_ne.
Qed.

Lemma retire_oldRunner_length uri s :
  length (tokenSources (retire_oldRunner uri s)) = length (tokenSources s).
Proof.
  unfold retire_oldRunner. destruct (runnerCancellations s !! uri); [| done].
  simpl. by rewrite !length_alter.
Qed.

Lemma retire_oldRunner_map uri s :
  runnerCancellations (retire_oldRunner uri s) = runnerCancellations s.
Proof. unfold retire_oldRunner. by destruct (runnerCancellations s !! uri). Qed.

Lemma install_runner_eq uri s :
  install_runner uri s =
    (length (tokenSources s),
     {| runnerCancellations := <[uri := length (tokenSources s)]> (runnerCancellations s);
        tokenSources := tokenSources s ++ [fresh];
        diagnosticCollection := diagnosticCollection s;
        errorMessages := errorMessages s;
        logged := logged s |}).
Proof. done. Qed.

(** [validate] either returns at a guard, or retires the old runner and
    installs a new one at the end of the store. *)
Lemma validate_cases uri languageId workspaceFolder snifferEnable s :
  validate uri languageId workspaceFolder snifferEnable s = (None, s) ∨
  ∃ s', validate uri languageId workspaceFolder snifferEnable s
          = (Some (length (tokenSources s)), s') ∧
        tokenSources s' = tokenSources (retire_oldRunner uri s) ++ [fresh] ∧
        runnerCancellations s' =
          <[uri := length (tokenSources s)]> (runnerCancellations s).
Proof.
  unfold validate. destruct workspaceFolder; [| by left].
  destruct (_ || _); [by left |]. right.
  rewrite install_runner_eq, retire_oldRunner_length, retire_oldRunner_map.
  eexists. split; [done |]. by simpl.
Qed.

Section SchedulerFacts.

Variable JSON_parse : string → ParseResult.
Variable PHPCSMessageType_ERROR : string.

Abbreviation step := (step JSON_parse PHPCSMessageType_ERROR).
Abbreviation run_events := (run_events JSON_parse PHPCSMessageType_ERROR).

(** The handler leaves the runners alone, or disposes its own runner (whose
    token it found not cancelled) and removes the document from the map. *)
Lemma on_close_runners fs run stdout stderr s :
  let s' := (Sniffer.on_close JSON_parse PHPCSMessageType_ERROR fs run stdout stderr s).2 in
  (tokenSources s' = tokenSources s ∧ runnerCancellations s' = runnerCancellations s) ∨
  (token_cancelled (run_runner run) s = false ∧
   tokenSources s' = alter disposed (run_runner run) (tokenSources s) ∧
   runnerCancellations s' = delete (run_uri run) (runnerCancellations s)).
Proof.
  destruct (token_cancelled (run_runner run) s || negb (truthy stdout)) eqn:Hearly.
  - left.
    destruct (on_close_early JSON_parse PHPCSMessageType_ERROR fs run stdout stderr s Hearly)
      as (_ & _ & Hm & Ht & _). done.
  - right. apply orb_false_iff in Hearly as [Hc Hne].
    rewrite negb_false_iff, truthy_true in Hne.
    destruct (on_close_late JSON_parse PHPCSMessageType_ERROR fs run stdout stderr s Hc Hne)
      as (_ & Hm & Ht & _). done.
Qed.

Lemma inv_start : scheduler_inv start.
Proof. split; simpl; try done; intros; simplify_eq. Qed.

Lemma inv_validate c uri languageId workspaceFolder snifferEnable standard showSources :
  scheduler_inv c →
  scheduler_inv
    (step c (EvValidate uri languageId workspaceFolder snifferEnable standard showSources)).
Proof.
  intros [Hlen Hrun Hlive Hpend Hreg]. simpl.
  destruct (validate_cases uri languageId workspaceFolder snifferEnable (state c))
    as [-> | (s' & -> & Hsrc & Hmap)].
  { by split. }
  assert (Hretlen := retire_oldRunner_length uri (state c)).
  split; simpl.
  - rewrite Hsrc, !length_app, Hretlen. simpl. lia.
  - intros r run b Hr. apply lookup_snoc_Some in Hr as [[_ Hr] | [Hr1 Hr2]].
    + eauto.
    + injection Hr2 as <- <-. simpl. lia.
  - intros r run b Hr Hl. unfold live in Hl. rewrite Hsrc in Hl. rewrite Hmap.
    apply lookup_snoc_Some in Hr as [[Hlt Hr] | [Hr1 Hr2]].
    + rewrite lookup_app_l in Hl by lia.
      rewrite retire_oldRunner_lookup in Hl.
      destruct (runnerCancellations (state c) !! uri) as [old|] eqn:Hold.
      * destruct (decide (r = old)) as [-> | Hne].
        { destruct (tokenSources (state c) !! old); discriminate. }
        assert (Hm := Hlive _ _ _ Hr Hl).
        rewrite lookup_insert_ne; [done |]. intros Heq. rewrite <- Heq in Hm. congruence.
      * assert (Hm := Hlive _ _ _ Hr Hl).
        rewrite lookup_insert_ne; [done |]. intros Heq. rewrite <- Heq in Hm. congruence.
    + injection Hr2 as <- <-. simpl. rewrite lookup_insert_eq. f_equal. lia.
  - intros r run t Hr Ht Hd. rewrite Hsrc in Ht.
    apply lookup_snoc_Some in Hr as [[Hlt Hr] | [Hr1 Hr2]]; last first.
    { subst r. rewrite Hlen, <- Hretlen in Ht.
      rewrite list_lookup_middle in Ht by done. by simplify_eq/=. }
    rewrite lookup_app_l in Ht by lia.
    rewrite retire_oldRunner_lookup in Ht.
    destruct (runnerCancellations (state c) !! uri) as [old|]; [| eauto].
    destruct (decide (r = old)) as [-> | Hne]; [| eauto].
    destruct (tokenSources (state c) !! old); simplify_eq/=. done.
  - intros uri' r. rewrite Hmap, Hsrc, length_app, Hretlen. simpl.
    rewrite lookup_insert_Some. intros [[_ <-] | [_ Hr]]; [lia |].
    apply Hreg in Hr. lia.
Qed.

Lemma inv_close c runner fs code stdout stderr version table :
  scheduler_inv c →
  scheduler_inv (step c (EvClose runner fs code stdout stderr version table)).
Proof.
  intros Hinv. destruct Hinv as [Hlen Hrun Hlive Hpend Hreg]. simpl.
  destruct (runs c !! runner) as [[run []]|] eqn:Hr; try by split.
  assert (run_runner run = runner) as Hrr by eauto.
  assert (runner < length (runs c)) as Hlt by (by eapply lookup_lt_Some).
  destruct (on_close_runners fs run stdout stderr (state c))
    as [[Hsrc Hmap] | (Hc & Hsrc & Hmap)];
    set (s' := (Sniffer.on_close _ _ fs run stdout stderr (state c)).2) in *.
  - split; simpl; rewrite ?Hsrc, ?Hmap, ?length_insert; try done.
    + intros r run' b. rewrite list_lookup_insert_Some.
      intros [(-> & Heq & _) | [_ H]]; [by simplify_eq | eauto].
    + intros r run' b. unfold live. simpl. rewrite Hsrc, list_lookup_insert_Some.
      intros [(-> & Heq & _) | [_ H]] Hl; [simplify_eq; eapply Hlive; eauto | eauto].
    + intros r run' t. rewrite list_lookup_insert_Some.
      intros [(-> & Heq & _) | [_ H]]; [by simplify_eq | eauto].
  - rewrite Hrr in *.
    assert (live runner (state c)) as Hlr.
    { destruct (lookup_lt_is_Some_2 (tokenSources (state c)) runner) as [t Ht]; [lia |].
      unfold token_cancelled in Hc. rewrite Ht in Hc.
      assert (isDisposed t = false) as Hd.
      { destruct (isDisposed t) eqn:E; [| done].
        rewrite (Hpend _ _ _ Hr Ht E) in Hc. done. }
      unfold live. rewrite Ht. destruct t; simpl in *. by subst. }
    assert (Hmr := Hlive _ _ _ Hr Hlr).
    split; simpl; rewrite ?Hsrc, ?Hmap, ?length_insert, ?length_alter; try done.
    + intros r run' b. rewrite list_lookup_insert_Some.
      intros [(-> & Heq & _) | [_ H]]; [by simplify_eq | eauto].
    + intros r run' b Hr' Hl. unfold live in Hl. simpl in Hl. rewrite Hsrc in Hl.
      destruct (decide (r = runner)) as [-> | Hne].
      { rewrite list_lookup_alter_eq in Hl.
        destruct (tokenSources (state c) !! runner); discriminate. }
      rewrite list_lookup_alter_ne in Hl by done.
      rewrite list_lookup_insert_ne in Hr' by done.
      assert (Hm := Hlive _ _ _ Hr' Hl).
      rewrite lookup_delete_ne; [done |]. intros Heq. rewrite Heq in Hmr. congruence.
    + intros r run' t. rewrite list_lookup_insert_Some.
      intros [(-> & Heq & _) | [Hne H]]; [by simplify_eq |].
      rewrite list_lookup_alter_ne by done. eauto.
    + intros uri r. rewrite lookup_delete_Some. intros [_ H]. eauto.
Qed.

Lemma inv_step c ev : scheduler_inv c → scheduler_inv (step c ev).
Proof.
  destruct ev.
  - apply inv_validate.
  - apply inv_close.
  - intros []. by split.
  - intros []. by split.
Qed.

Lemma inv_run_events evs : scheduler_inv (run_events evs).
Proof.
  unfold Sniffer.run_events. induction evs as [|ev evs IH] using rev_ind.
  - apply inv_start.
  - rewrite foldl_app. simpl. by apply inv_step.
Qed.

End SchedulerFacts.

(** C2. In every configuration the scheduler can reach, a document has at
    most one live token source: two runs started for the same document whose
    token sources are both neither cancelled nor disposed are the same run.
    And in every such configuration [validate], past its guards, gives a
    runner that did not exist before, live, and stored under the document;
    when the map held a runner for the document, that old runner is
    cancelled and disposed first, in a store where the new runner does not
    exist yet, and it stays so. *)
Theorem one_live_runner_per_document
    (JSON_parse : string → ParseResult) (PHPCSMessageType_ERROR : string)
    (evs : list Event) :
  let c := run_events JSON_parse PHPCSMessageType_ERROR evs in
  (∀ r1 r2 run1 run2 b1 b2,
     runs c !! r1 = Some (run1, b1) → runs c !! r2 = Some (run2, b2) →
     run_uri run1 = run_uri run2 →
     live r1 (state c) → live r2 (state c) → r1 = r2) ∧
  (∀ uri folder,
     ∃ runner s2,
       validate uri "php" (Some folder) true (state c) = (Some runner, s2) ∧
       tokenSources (state c) !! runner = None ∧
       live runner s2 ∧
       runnerCancellations s2 !! uri = Some runner ∧
       ∀ oldRunner,
         runnerCancellations (state c) !! uri = Some oldRunner →
         let s1 := retire_oldRunner uri (state c) in
         tokenSources s1 !! oldRunner = Some retired ∧
         tokenSources s1 !! runner = None ∧
         s2 = (install_runner uri s1).2 ∧
         tokenSources s2 !! oldRunner = Some retired).
Proof.
  intros c. assert (Hinv := inv_run_events JSON_parse PHPCSMessageType_ERROR evs).
  fold c in Hinv. destruct Hinv as [Hlen Hrun Hlive Hpend Hreg]. split.
  - intros r1 r2 run1 run2 b1 b2 H1 H2 Huri Hl1 Hl2.
    assert (Hm1 := Hlive _ _ _ H1 Hl1). assert (Hm2 := Hlive _ _ _ H2 Hl2).
    rewrite Huri in Hm1. congruence.
  - intros uri folder. set (s1 := retire_oldRunner uri (state c)).
    assert (validate uri "php" (Some folder) true (state c)
            = (Some (install_runner uri s1).1, (install_runner uri s1).2)) as Hv.
    { unfold validate. simpl. reflexivity. }
    assert (Hretlen : length (tokenSources s1) = length (tokenSources (state c)))
      by apply retire_oldRunner_length.
    exists (install_runner uri s1).1, (install_runner uri s1).2.
    split; [exact Hv |]. rewrite install_runner_eq. simpl.
    split_and!.
    + apply lookup_ge_None_2. lia.
    + unfold live. simpl. by apply list_lookup_middle.
    + apply lookup_insert_eq.
    + intros oldRunner Hold.
      assert (Hlt := Hreg _ _ Hold).
      destruct (lookup_lt_is_Some_2 (tokenSources (state c)) oldRunner Hlt) as [t Ht].
      assert (tokenSources s1 !! oldRunner = Some retired) as Hs1.
      { subst s1. rewrite retire_oldRunner_lookup, Hold, Ht. by rewrite decide_True. }
      split_and!.
      * done.
      * by apply lookup_ge_None_2.
      * done.
      * by apply lookup_app_l_Some.
Qed.

(** C2 on a document that is validated a second time: the first runner is
    retired, the second is new, live and in the map. *)
Lemma one_live_runner_per_document_witness :
  let c := run_events sample_parse "ERROR" [sample_validate] in
  runnerCancellations (state c) !! "file:///a.php" = Some 0%nat ∧
  ∃ s2,
    validate "file:///a.php" "php" (Some 0%nat) true (state c) = (Some 1%nat, s2) ∧
    tokenSources s2 !! 0%nat = Some retired ∧
    live 1 s2 ∧
    runnerCancellations s2 !! "file:///a.php" = Some 1%nat.
Proof.
  intros c. split; [reflexivity |].
  destruct (proj2 (one_live_runner_per_document sample_parse "ERROR" [sample_validate])
              "file:///a.php" 0%nat) as (runner & s2 & Hv & _ & Hl & Hm & Hold).
  destruct (Hold 0%nat eq_refl) as (_ & _ & _ & Hr).
  assert (runner = 1%nat) as -> by (vm_compute in Hv; congruence).
  by exists s2.
Defined.

(** A run that is no longer the one the map holds for its document finds its
    token cancelled when its process closes. *)
Lemma superseded_run_is_cancelled
    (JSON_parse : string → ParseResult) (PHPCSMessageType_ERROR : string)
    (evs : list Event) r run :
  let c := run_events JSON_parse PHPCSMessageType_ERROR evs in
  runs c !! r = Some (run, false) →
  runnerCancellations (state c) !! run_uri run ≠ Some r →
  token_cancelled (run_runner run) (state c) = true.
Proof.
  intros c Hr Hm. assert (Hinv := inv_run_events JSON_parse PHPCSMessageType_ERROR evs).
  fold c in Hinv. destruct Hinv as [Hlen Hrun Hlive Hpend Hreg].
  rewrite (Hrun _ _ _ Hr). unfold token_cancelled.
  destruct (lookup_lt_is_Some_2 (tokenSources (state c)) r) as [t Ht].
  { rewrite <- Hlen. by eapply lookup_lt_Some. }
  rewrite Ht. destruct (isCancellationRequested t) eqn:Ec; [done |].
  destruct (isDisposed t) eqn:Ed.
  - rewrite (Hpend _ _ _ Hr Ht Ed) in Ec. done.
  - exfalso. apply Hm. eapply Hlive; [done |]. unfold live. rewrite Ht.
    destruct t; simpl in *. by subst.
Qed.

(** Two validations of one document in a row: the first runner is retired,
    the second is live and is the one the map holds. *)
Example validate_twice :
  let ev := EvValidate "file:///a.php" "php" (Some 0%nat) true EmptyString false in
  let c := run_events sample_parse "ERROR" [ev; ev] in
  tokenSources (state c) = [retired; fresh] ∧
  runnerCancellations (state c) !! "file:///a.php" = Some 1%nat.
Proof. vm_compute. repeat split. Qed.

(** The cancellation race: when the process of a run closes after a newer
    run has taken its place in the map, the diagnostics stay as they are. *)
Lemma stale_close_publishes_nothing
    (JSON_parse : string → ParseResult) (PHPCSMessageType_ERROR : string)
    (evs : list Event) r run fs code stdout stderr version table :
  let c := run_events JSON_parse PHPCSMessageType_ERROR evs in
  runs c !! r = Some (run, false) →
  runnerCancellations (state c) !! run_uri run ≠ Some r →
  diagnosticCollection
    (state (step JSON_parse PHPCSMessageType_ERROR c
              (EvClose r fs code stdout stderr version table)))
  = diagnosticCollection (state c).
Proof.
  intros c Hr Hm. simpl. rewrite Hr. simpl.
  assert (Hc := superseded_run_is_cancelled JSON_parse PHPCSMessageType_ERROR evs r run Hr Hm).
  fold c in Hc.
  destruct (on_close_early JSON_parse PHPCSMessageType_ERROR fs run stdout stderr (state c))
    as (_ & Hd & _); [by rewrite Hc | done].
Qed.

(** ** Sample runs of the handler *)

(** The sample report gives one diagnostic, an error at line 1, column 0. *)
Example on_close_sample_report :
  diagnosticCollection
    (on_close sample_parse "ERROR" no_files sample_run sample_report_text EmptyString
       (sample_state false)).2 !! "file:///a.php"
  = Some [{| range := {| startLine := 1; startCharacter := 0;
                         endLine := 1; endCharacter := 0 |};
             diag_message := "Missing file doc comment" +:+ nl +:+ "Auto-fixable: ❌";
             severity := Error; diag_source := "phpcs" |}].
Proof. vm_compute. reflexivity. Qed.

(** C4, as stated, fails: a document has one published diagnostic, its next
    run is not cancelled and prints text that is no report; the handler
    rejects the run with the raw output in the message, and after it the
    document's entry in the collection is the empty list, no longer the
    diagnostic published before. *)
Lemma malformed_report_counterexample :
  let s := sample_state false in
  let result := on_close sample_parse "ERROR" no_files sample_run "not json" EmptyString s in
  token_cancelled (run_runner sample_run) s = false ∧
  sample_parse "not json"
    = ParseThrows true "SyntaxError: Unexpected token o in JSON at position 1" ∧
  result.1 = Rejected ("not json" +:+ nl +:+
                       "SyntaxError: Unexpected token o in JSON at position 1") ∧
  diagnosticCollection s !! "file:///a.php" = Some [sample_published] ∧
  diagnosticCollection result.2 !! "file:///a.php" = Some [].
Proof. vm_compute. repeat split. Qed.

(** C4, amended, on the sample: text that is no report, and a report whose
    second message is at line 0. *)
Lemma malformed_report_rejects_and_clears_witness :
  let s := sample_state false in
  let result := on_close sample_parse "ERROR" no_files sample_run "not json" EmptyString s in
  let result' :=
    on_close unpositioned_parse "ERROR" no_files sample_run unpositioned_report_text
      EmptyString s in
  (result.1 = Rejected ("not json" +:+ nl +:+
                        "SyntaxError: Unexpected token o in JSON at position 1") ∧
   errorMessages result.2 =
     ["not json" +:+ nl +:+ "SyntaxError: Unexpected token o in JSON at position 1"] ∧
   diagnosticCollection result.2 !! "file:///a.php" = Some []) ∧
  (∃ diagnostic errorString,
     result'.1 = Rejected (unpositioned_report_text +:+ nl +:+ errorString) ∧
     diagnosticCollection result'.2 !! "file:///a.php" = Some [diagnostic] ∧
     range diagnostic = {| startLine := 1; startCharacter := 0;
                           endLine := 1; endCharacter := 0 |}).
Proof.
  intros s result result'. split.
  - destruct (malformed_report_rejects_and_clears sample_parse "ERROR" no_files sample_run
                "not json" EmptyString (sample_state false) eq_refl ltac:(discriminate))
      as (H & _ & _).
    exact (H true "SyntaxError: Unexpected token o in JSON at position 1" eq_refl).
  - destruct (malformed_report_rejects_and_clears unpositioned_parse "ERROR" no_files
                sample_run unpositioned_report_text EmptyString (sample_state false)
                eq_refl ltac:(discriminate))
      as (_ & H & _).
    destruct (H unpositioned_report [sample_message] unpositioned_message []
                eq_refl eq_refl)
      as (diagnostics & errorString & H1 & _ & H3 & H4).
    + repeat constructor; simpl; lia.
    + left. simpl. lia.
    + apply Forall2_cons_inv_l in H4 as (d & ds & (Hrange & _) & Hnil & ->).
      apply Forall2_nil_inv_l in Hnil as ->.
      exists d, errorString. split_and!; [exact H1 | exact H3 | exact Hrange].
Defined.

(** C3 on the sample: the token of the run is cancelled, its output is a
    good report, and the diagnostic published before stays. *)
Lemma cancelled_run_publishes_nothing_witness :
  let s := sample_state true in
  let result :=
    on_close sample_parse "ERROR" no_files sample_run sample_report_text EmptyString s in
  result.1 = Resolved ∧
  diagnosticCollection result.2 = diagnosticCollection s ∧
  runnerCancellations result.2 = runnerCancellations s ∧
  tokenSources result.2 = tokenSources s ∧
  errorMessages result.2 = errorMessages s ++ [].
Proof.
  apply (cancelled_run_publishes_nothing sample_parse "ERROR" no_files sample_run
           sample_report_text EmptyString (sample_state true)).
  reflexivity.
Defined.

(** C8 on the sample report. *)
Lemma published_findings_are_zero_based_witness :
  (on_close sample_parse "ERROR" no_files sample_run sample_report_text EmptyString
     (sample_state false)).1 = Resolved ∧
  ∃ diagnostics,
    diagnosticCollection
      (on_close sample_parse "ERROR" no_files sample_run sample_report_text EmptyString
         (sample_state false)).2 !! "file:///a.php" = Some diagnostics ∧
    Forall2
      (λ m d,
         range d = {| startLine := msg_line m - 1; startCharacter := msg_column m - 1;
                      endLine := msg_line m - 1; endCharacter := msg_column m - 1 |} ∧
         (msg_type m = "ERROR" → severity d = Error) ∧
         (msg_type m ≠ "ERROR" → severity d = Warning))
      (flat_map (λ file, messages file.2) (files sample_report)) diagnostics.
Proof.
  apply (published_findings_are_zero_based sample_parse "ERROR" no_files sample_run
           sample_report_text EmptyString (sample_state false) sample_report).
  - reflexivity.
  - discriminate.
  - vm_compute. reflexivity.
  - repeat constructor; simpl; lia.
Defined.

(** ** The fixer: the outcome of [format] *)



Lemma opens_with_text_app a b :
  opens_with_text a = true → opens_with_text (a +:+ b) = true.
Proof. by destruct a. Qed.



(** Past its guards, with the version call returned and [stderr] bound,
    [format] rejects with the error that the switch throws, or with the
    [error] it leaves when that is not empty, and resolves with the [result]
    otherwise. *)
Lemma format_past_guards fs version table inp folder stderr :
  Fixer.workspaceFolder inp = Some folder →
  Fixer.languageId inp = "php" →
  Fixer.fixerEnable inp = true →
  Fixer.stderr inp = Some stderr →
  let out := Fixer.format fs (Some version) table inp in
  match Fixer.format_switch fs inp stderr (format_exitcode version table inp)
          (format_errorMsg version table inp) with
  | inl e => Fixer.outcome out = Fixer.Throw e
  | inr sw =>
      Fixer.outcome out =
        (if truthy sw.1.1.1 then Fixer.Reject sw.1.1.1 else Fixer.Resolve sw.1.1.2) ∧
      Fixer.info_message out = sw.1.2
  end.
Proof.
  intros Hw Hl He Hs. unfold Fixer.format, format_errorMsg, format_exitcode.
  rewrite Hw, Hl, He, Hs. simpl.
  destruct (getMappedExitCode _ _ _ _) as [exitcode entries]. simpl.
  destruct (Fixer.format_switch _ _ _ _ _) as [e | [[[error result] message] log3]];
    simpl; [done |].
  by destruct (truthy error).
Qed.

(** Where [stderr] is not bound, [format] past its guards ends at the read of
    that name. *)
Lemma format_stderr_not_defined fs version table inp folder :
  Fixer.workspaceFolder inp = Some folder →
  Fixer.languageId inp = "php" →
  Fixer.fixerEnable inp = true →
  Fixer.stderr inp = None →
  Fixer.outcome (Fixer.format fs (Some version) table inp) = Fixer.Throw stderr_not_defined.
Proof.
  intros Hw Hl He Hs. unfold Fixer.format. rewrite Hw, Hl, He, Hs. simpl.
  by destruct (getMappedExitCode _ _ _ _) as [exitcode entries].
Qed.

Lemma text_changed_true inp :
  text_changed inp →
  negb (bool_decide (String.length (trim (Fixer.stdout (Fixer.fixer inp))) = 0%nat))
  && negb (eqb_string (trim (Fixer.stdout (Fixer.fixer inp))) (Fixer.fileText inp)) = true.
Proof.
  intros [H1 H2]. rewrite andb_true_iff, !negb_true_iff. split.
  - apply bool_decide_eq_false. by rewrite length_zero_empty.
  - by apply eqb_string_false.
Qed.

Lemma text_changed_false inp :
  ¬ text_changed inp →
  negb (bool_decide (String.length (trim (Fixer.stdout (Fixer.fixer inp))) = 0%nat))
  && negb (eqb_string (trim (Fixer.stdout (Fixer.fixer inp))) (Fixer.fileText inp)) = false.
Proof.
  intros H. apply not_true_is_false. intros Ht. apply H.
  apply andb_true_iff in Ht as [H1 H2]. rewrite negb_true_iff in H1, H2. split.
  - apply bool_decide_eq_false in H1. by rewrite length_zero_empty in H1.
  - by apply eqb_string_false.
Qed.



(** The no-status case of the switch. *)
Lemma format_switch_no_status fs inp stderr errorMsg :
  Fixer.format_switch fs inp stderr (Str "-1") errorMsg =
    match Fixer.error (Fixer.fixer inp) with
    | Fixer.error_undefined =>
        inr ("A general script execution error occurred.", EmptyString, EmptyString, [])
    | Fixer.error_null => inl (Fixer.TypeError "code")
    | Fixer.error_object e => inr (no_status_error e, EmptyString, EmptyString, [])
    end.
Proof.
  unfold Fixer.format_switch. simpl.
  destruct (Fixer.error (Fixer.fixer inp)) as [| |e]; [done | done |].
  unfold no_status_error, eqb_string. by repeat case_bool_decide.
Qed.

(** The cases of 0 and of 5. *)
Lemma format_switch_no_errors fs inp stderr errorMsg :
  Fixer.format_switch fs inp stderr (Num 0) errorMsg =
    if negb (bool_decide (String.length (trim (Fixer.stdout (Fixer.fixer inp))) = 0%nat))
       && negb (eqb_string (trim (Fixer.stdout (Fixer.fixer inp))) (Fixer.fileText inp))
    then inr (EmptyString, trim (Fixer.stdout (Fixer.fixer inp)),
              "All fixable errors were fixed correctly.", [])
    else inr (EmptyString, EmptyString, "No fixable errors were found.", []).
Proof. done. Qed.

Lemma format_switch_partial fs inp stderr errorMsg :
  Fixer.format_switch fs inp stderr (Num 5) errorMsg =
    if negb (bool_decide (String.length (trim (Fixer.stdout (Fixer.fixer inp))) = 0%nat))
       && negb (eqb_string (trim (Fixer.stdout (Fixer.fixer inp))) (Fixer.fileText inp))
    then inr (EmptyString, trim (Fixer.stdout (Fixer.fixer inp)), "FIXER: " +:+ errorMsg, [])
    else match Fixer.error (Fixer.fixer inp) with
         | Fixer.error_object e =>
             inr (Fixer.node_internal_error e, EmptyString, EmptyString, [])
         | _ => inr (EmptyString, EmptyString, EmptyString, [])
         end.
Proof. done. Qed.


(** The last case of the switch: nothing is thrown, and the [error] it leaves
    is the disabled-standard explanation or the tool's own text. *)
Lemma format_switch_default fs inp stderr exitcode errorMsg :
  exitcode ≠ Str "-1" → exitcode ≠ Num 0 → exitcode ≠ Num 5 →
  ∃ entries,
    Fixer.format_switch fs inp stderr exitcode errorMsg =
      inr (if (isStandardDisabled fs (Fixer.standard inp) phpcbf
                 (trim (Fixer.stdout (Fixer.fixer inp))) stderr).1
           then getStandardDisabledErrorMsg (Fixer.standard inp) phpcbf
                  (trim (Fixer.stdout (Fixer.fixer inp))) stderr
           else own_error_text inp errorMsg,
           EmptyString, EmptyString, entries).
Proof.
  intros H1 H0 H5. unfold Fixer.format_switch, own_error_text.
  rewrite !bool_decide_eq_false_2 by done.
  destruct (isStandardDisabled _ _ _ _ _) as [[] entries]; cbn [fst snd];
    exists entries; [done |].
  destruct (String.length _) eqn:Hlen; simpl.
  - apply length_zero_empty in Hlen. rewrite bool_decide_eq_true_2 by done.
    by destruct (Fixer.error (Fixer.fixer inp)).
  - rewrite bool_decide_eq_false_2; [done |].
    intros Hf. apply length_zero_empty in Hf. congruence.
Qed.


(** ** Sample runs of the fixer *)



(** * More of the code *)

(** ** errors.ts: numbers as property keys *)

Lemma digit_of_pretty_N_char d :
  (d < 10)%N → digit_of_ascii (pretty_N_char d) = Some (Z.of_N d).
Proof.
  intros Hd.
  assert (d = 0 ∨ d = 1 ∨ d = 2 ∨ d = 3 ∨ d = 4 ∨ d = 5 ∨ d = 6 ∨ d = 7
          ∨ d = 8 ∨ d = 9)%N as Hcases by lia.
  repeat (destruct Hcases as [-> | Hcases]; [by vm_compute |]). by subst.
Qed.

(** Reading back the digits that [pretty_N_go] puts in front of a string. *)
Lemma digits_pretty_N_go x :
  ∃ k : Z, (0 ≤ k)%Z ∧
    ∀ s a, digits a (pretty_N_go x s) = digits (a * 10 ^ k + Z.of_N x) s.
Proof.
  induction (N.lt_wf_0 x) as [x _ IH].
  destruct (decide (x = 0%N)) as [-> | Hx].
  - exists 0%Z. split; [done |]. intros s a. rewrite pretty_N_go_0. f_equal. lia.
  - destruct (IH (x `div` 10)%N) as (k & Hk & IHk).
    { apply N.div_lt; lia. }
    exists (k + 1)%Z. split; [lia |]. intros s a.
    rewrite pretty_N_go_step by lia. rewrite IHk. simpl.
    rewrite digit_of_pretty_N_char by (apply N.mod_lt; lia).
    f_equal. rewrite Z.pow_add_r by lia.
    pose proof (N.div_mod x 10 ltac:(lia)) as Hdm.
    set (q := (x `div` 10)%N) in *. set (r := (x `mod` 10)%N) in *. lia.
Qed.

Lemma digits_pretty_N (x : N) : digits 0 (pretty x) = Some (Z.of_N x).
Proof.
  unfold pretty, pretty_N. case_decide as Hx; [by subst |].
  destruct (digits_pretty_N_go x) as (k & _ & Hk). rewrite Hk. simpl. f_equal; lia.
Qed.

(** [Number] reads a key without a minus sign as its digits. *)
Lemma Number_unsigned key :
  (∀ rest, key ≠ "-" +:+ rest) → Number key = digits 0 key.
Proof.
  intros Hkey. destruct key as [|c key]; [done |]. unfold Number.
  destruct (decide (c = "-"%char)) as [-> | Hc].
  - destruct key as [|d key]; [done |]. by destruct (Hkey (String d key)).
  - by destruct c as [[] [] [] [] [] [] [] []].
Qed.

(** Round trip: the key of a number reads back as that number. *)
Lemma Number_pretty (n : Z) : Number (pretty n) = Some n.
Proof.
  destruct n as [|p|p]; [done | |].
  - change (pretty (Z.pos p)) with (pretty (N.pos p)).
    rewrite Number_unsigned, digits_pretty_N; [done |].
    intros rest. unfold pretty, pretty_N. case_decide; [done |].
    by apply pretty_N_go_ne_dash.
  - change (pretty (Z.neg p)) with ("-" +:+ pretty (N.pos p)).
    assert (Hd := digits_pretty_N (N.pos p)).
    destruct (pretty (N.pos p)) as [|c s] eqn:Hp; [by simplify_eq/= |].
    change (Number ("-" +:+ String c s)) with (Z.opp <$> digits 0 (String c s)).
    by rewrite Hd.
Qed.

Lemma pretty_Z_eq (n m : Z) : pretty n = pretty m ↔ n = m.
Proof. split; [apply (inj pretty) | by intros ->]. Qed.

(** ** errors.ts: the 4.x table *)

(** An entry of [Object.fromEntries] comes from the list. *)
Lemma Object_fromEntries_lookup_Some entries key value :
  Object_fromEntries entries !! key = Some value →
  ∃ c, (c, value) ∈ entries ∧ propertyKey c = key.
Proof.
  unfold Object_fromEntries.
  cut (∀ acc : gmap string Code,
         foldl (λ o kv, <[propertyKey kv.1 := kv.2]> o) acc entries !! key = Some value →
         acc !! key = Some value ∨ ∃ c, (c, value) ∈ entries ∧ propertyKey c = key).
  { intros Hcut H. destruct (Hcut ∅ H) as [He | ?]; [by rewrite lookup_empty in He | done]. }
  induction entries as [|[c v] entries IH]; intros acc H; simpl in H; [by left |].
  destruct (IH _ H) as [Hacc | (c' & Hin & Hkey)].
  - apply lookup_insert_Some in Hacc as [[Hk Hv] | [_ Hacc]]; [| by left].
    simpl in *. subst. right. exists c. split; [left | done].
  - right. exists c'. split; [by right | done].
Qed.

(** Every pair of the list has its key in the object. *)
Lemma Object_fromEntries_lookup_is_Some entries c value :
  (c, value) ∈ entries → is_Some (Object_fromEntries entries !! propertyKey c).
Proof.
  unfold Object_fromEntries.
  cut (∀ acc : gmap string Code,
         is_Some (acc !! propertyKey c) ∨ (c, value) ∈ entries →
         is_Some (foldl (λ o kv, <[propertyKey kv.1 := kv.2]> o) acc entries
                    !! propertyKey c)).
  { intros Hcut H. apply Hcut. by right. }
  induction entries as [|[c' v'] entries IH]; intros acc H; simpl.
  - destruct H as [H | H]; [done | by apply elem_of_nil in H].
  - apply IH. destruct H as [H | H].
    + left. apply lookup_insert_is_Some'. by right.
    + apply elem_of_cons in H as [Heq | H]; [| by right].
      injection Heq as <- <-. left. simpl. rewrite lookup_insert_eq. by eexists.
Qed.

(** What the 4.x table holds under the key of a number is that number. *)
Lemma map4xStatusFromErrors_lookup_number table (n : Z) value :
  map4xStatusFromErrors table !! pretty n = Some value → value = Num n.
Proof.
  unfold map4xStatusFromErrors. intros H.
  apply Object_fromEntries_lookup_Some in H as (c & Hin & Hkey).
  apply list_elem_of_fmap in Hin as (key & Heq & _).
  injection Heq as -> ->.
  destruct (Number key) as [m|] eqn:Hnum; simpl in Hkey.
  - apply pretty_Z_eq in Hkey. by subst.
  - subst key. by rewrite Number_pretty in Hnum.
Qed.

(** A key of the message table that reads as a number is in the 4.x table. *)
Lemma map4xStatusFromErrors_lookup_key table (n : Z) :
  is_Some (table !! pretty n) → map4xStatusFromErrors table !! pretty n = Some (Num n).
Proof.
  intros [msg Hmsg].
  assert (is_Some (map4xStatusFromErrors table !! pretty n)) as [value Hv].
  { unfold map4xStatusFromErrors.
    apply (Object_fromEntries_lookup_is_Some _ (Num n) (Num n)).
    apply list_elem_of_fmap. exists (pretty n). rewrite Number_pretty. split; [done |].
    unfold Object_keys. apply list_elem_of_fmap. exists (pretty n, msg).
    split; [done | by apply elem_of_map_to_list]. }
  by rewrite Hv, (map4xStatusFromErrors_lookup_number _ _ _ Hv).
Qed.

(** X1. With a 4.x tool every numeric exit code passes through
    [getMappedExitCode] unchanged, whatever the message table holds and for
    both tools; nothing is logged. *)
Theorem getMappedExitCode_4x_passes_numbers table v (n : Z) type :
  startsWith v "4." = true →
  getMappedExitCode table (Some v) (Some (Num n)) type = (Num n, []).
Proof.
  intros H4. unfold getMappedExitCode. rewrite H4. simpl. f_equal.
  destruct (map4xStatusFromErrors table !! pretty n) as [value|] eqn:Hv; [| done].
  simpl. by apply map4xStatusFromErrors_lookup_number in Hv.
Qed.

(** X1 at version 4.0.1. *)
Lemma getMappedExitCode_4x_passes_numbers_witness :
  getMappedExitCode errorMsgs (Some "4.0.1") (Some (Num 255)) sniffer = (Num 255, []).
Proof.
  apply (getMappedExitCode_4x_passes_numbers errorMsgs "4.0.1" 255 sniffer). reflexivity.
Defined.

(** ** errors.ts: the message table under any calls *)

Lemma getErrorMsg_table status type table :
  (getErrorMsg status type table).2 =
    match type with
    | fixer => <["0" := fixer_message]> table
    | sniffer => table
    end.
Proof. by destruct type. Qed.

(** X2. The message table after any sequence of calls of [getErrorMsg] is
    the table before them, with entry 0 overwritten by the fixer's text if
    one of the calls was for the fixer, and untouched otherwise: no call
    changes another entry, and no order or number of calls matters. *)
Theorem getErrorMsg_calls_closed_form calls table :
  getErrorMsg_calls calls table =
    if has_fixer_call calls
    then <["0" := "No errors were found or all errors were fixed"]> table
    else table.
Proof.
  revert table. induction calls as [|[status type] calls IH]; intros table; [done |].
  change (getErrorMsg_calls ((status, type) :: calls) table)
    with (getErrorMsg_calls calls (getErrorMsg status type table).2).
  rewrite IH, getErrorMsg_table. unfold has_fixer_call. simpl.
  destruct type; simpl; [| done].
  fold (has_fixer_call calls). destruct (has_fixer_call calls); [| done].
  apply insert_insert_eq.
Qed.

Lemma errorMsgs_is_Some key :
  is_Some (errorMsgs !! key) ↔
  key ∈ ["-1"; "0"; "1"; "2"; "3"; "4"; "5"; "7"; "16"].
Proof.
  unfold errorMsgs. rewrite <- not_eq_None_Some, <- not_elem_of_list_to_map. simpl.
  split; [apply dec_stable | by intros H Hn].
Qed.

(** No call changes an entry other than entry 0. *)
Lemma getErrorMsg_calls_other calls table key :
  key ≠ "0" → getErrorMsg_calls calls table !! key = table !! key.
Proof.
  intros Hkey. revert table.
  induction calls as [|[status type] calls IH]; intros table; [done |].
  change (getErrorMsg_calls ((status, type) :: calls) table)
    with (getErrorMsg_calls calls (getErrorMsg status type table).2).
  rewrite IH, getErrorMsg_table. destruct type; [| done].
  by rewrite lookup_insert_ne.
Qed.

(** Entry 0 stays in the table. *)
Lemma getErrorMsg_calls_zero calls table :
  is_Some (table !! "0") → is_Some (getErrorMsg_calls calls table !! "0").
Proof.
  revert table. induction calls as [|[status type] calls IH]; intros table H; [done |].
  apply IH. rewrite getErrorMsg_table. destruct type; simpl; [| done].
  rewrite lookup_insert_eq. by eexists.
Qed.

(** The keys of the table never change. *)
Lemma getErrorMsg_calls_is_Some calls key :
  is_Some (getErrorMsg_calls calls errorMsgs !! key) ↔ is_Some (errorMsgs !! key).
Proof.
  destruct (decide (key = "0")) as [-> | Hkey].
  - split; [by eexists | intros _; by apply getErrorMsg_calls_zero].
  - by rewrite getErrorMsg_calls_other.
Qed.

(** X3. Whatever calls came before, [getErrorMsg] has a message for a
    numeric status exactly when the status is one of -1, 0, 1, 2, 3, 4, 5, 7
    and 16; for every other number it returns [undefined]. *)
Theorem getErrorMsg_defined_iff calls (n : Z) type :
  is_Some (getErrorMsg (Num n) type (getErrorMsg_calls calls errorMsgs)).1 ↔
  documented_status n.
Proof.
  unfold getErrorMsg. simpl.
  assert (is_Some (match type with
                   | fixer => <["0" := "No errors were found or all errors were fixed"]>
                                (getErrorMsg_calls calls errorMsgs)
                   | sniffer => getErrorMsg_calls calls errorMsgs
                   end !! pretty n) ↔ is_Some (errorMsgs !! pretty n)) as ->.
  { destruct type; [| apply getErrorMsg_calls_is_Some].
    rewrite lookup_insert_is_Some', getErrorMsg_calls_is_Some.
    split; [| by right].
    intros [<- | H]; [by eexists | done]. }
  rewrite errorMsgs_is_Some. unfold documented_status.
  rewrite !elem_of_cons, !elem_of_nil.
  change "-1" with (pretty (-1)%Z). change "0" with (pretty 0%Z).
  change "1" with (pretty 1%Z). change "2" with (pretty 2%Z).
  change "3" with (pretty 3%Z). change "4" with (pretty 4%Z).
  change "5" with (pretty 5%Z). change "7" with (pretty 7%Z).
  change "16" with (pretty 16%Z).
  by rewrite !pretty_Z_eq.
Qed.

(** ** errors.ts: codes outside the tables, and the missing status *)

Lemma status3x_lookup_None type key :
  key ∉ ["-1"; "0"; "1"; "2"; "3"] →
  match type with
  | fixer => <["2" := Num 5]> (<["1" := Num 0]> status3x)
  | sniffer => status3x
  end !! key = None.
Proof.
  intros Hkey.
  assert (status3x !! key = None) as H3.
  { unfold status3x. by apply not_elem_of_list_to_map. }
  destruct type; [| done].
  rewrite !lookup_insert_ne; [done | |]; intros <-; apply Hkey; set_solver.
Qed.

(** X4. With a 3.x tool a numeric exit code other than -1, 0, 1, 2 and 3
    passes through [getMappedExitCode] unchanged, for both tools; and the
    number -1 comes out as the sentinel string '-1', the same as a missing
    status. *)
Theorem getMappedExitCode_3x_other_codes table v (n : Z) type :
  startsWith v "3." = true →
  (n ∉ [-1; 0; 1; 2; 3]%Z →
     getMappedExitCode table (Some v) (Some (Num n)) type = (Num n, [])) ∧
  getMappedExitCode table (Some v) (Some (Num (-1))) type = (Str "-1", []).
Proof.
  intros H3. rewrite !(getMappedExitCode_3x table v _ _ H3). split.
  - intros Hn. simpl. rewrite status3x_lookup_None; [done |].
    change "-1" with (pretty (-1)%Z). change "0" with (pretty 0%Z).
    change "1" with (pretty 1%Z). change "2" with (pretty 2%Z).
    change "3" with (pretty 3%Z).
    rewrite !elem_of_cons, !pretty_Z_eq, elem_of_nil.
    rewrite !elem_of_cons, elem_of_nil in Hn. done.
  - by destruct type.
Qed.

(** X4 at version 3.7.2. *)
Lemma getMappedExitCode_3x_other_codes_witness :
  getMappedExitCode errorMsgs (Some "3.7.2") (Some (Num 255)) fixer = (Num 255, []) ∧
  getMappedExitCode errorMsgs (Some "3.7.2") (Some (Num (-1))) fixer = (Str "-1", []).
Proof.
  destruct (getMappedExitCode_3x_other_codes errorMsgs "3.7.2" 255 fixer eq_refl)
    as [H1 H2].
  split; [apply H1 | exact H2].
  rewrite !elem_of_cons, elem_of_nil. intros H.
  repeat (destruct H as [H | H]; [discriminate |]). exact H.
Defined.

(** The 4.x table made from the message table holds the number -1 under the
    key '-1', whatever calls of [getErrorMsg] came before. *)
Lemma map4xStatusFromErrors_missing_status calls :
  map4xStatusFromErrors (getErrorMsg_calls calls errorMsgs) !! "-1" = Some (Num (-1)).
Proof.
  apply (map4xStatusFromErrors_lookup_key _ (-1)).
  apply getErrorMsg_calls_is_Some, errorMsgs_is_Some. set_solver.
Qed.

(** X5. With a 4.x tool a missing status does not come out of
    [getMappedExitCode] as the sentinel string '-1' but as the number -1,
    whatever calls of [getErrorMsg] came before and for both tools. *)
Theorem getMappedExitCode_4x_missing_status calls v type :
  startsWith v "4." = true →
  getMappedExitCode (getErrorMsg_calls calls errorMsgs) (Some v) None type
    = (Num (-1), []).
Proof.
  intros H4. unfold getMappedExitCode. rewrite H4. simpl.
  by rewrite map4xStatusFromErrors_missing_status.
Qed.

(** X5 at version 4.0.1, after a call for the fixer. *)
Lemma getMappedExitCode_4x_missing_status_witness :
  getMappedExitCode (getErrorMsg_calls [(Num 0, fixer)] errorMsgs) (Some "4.0.1") None
    sniffer = (Num (-1), []).
Proof.
  apply (getMappedExitCode_4x_missing_status [(Num 0, fixer)] "4.0.1" sniffer).
  reflexivity.
Defined.

(** ** The fixer: when [format] gives a replacement *)

Lemma text_changed_iff inp :
  negb (bool_decide (String.length (trim (Fixer.stdout (Fixer.fixer inp))) = 0%nat))
  && negb (eqb_string (trim (Fixer.stdout (Fixer.fixer inp))) (Fixer.fileText inp)) = true
  ↔ text_changed inp.
Proof.
  split; [| apply text_changed_true].
  intros H. destruct (decide (text_changed inp)) as [Hch | Hch]; [done |].
  by rewrite (text_changed_false inp Hch) in H.
Qed.

(** A [result] that is not empty comes from the case of 0 or of 5 with the
    text changed: it is the trimmed output, with no [error] next to it. *)
Lemma format_switch_result fs inp stderr exitcode errorMsg error result message entries :
  Fixer.format_switch fs inp stderr exitcode errorMsg
    = inr (error, result, message, entries) →
  result ≠ EmptyString →
  (exitcode = Num 0 ∨ exitcode = Num 5) ∧ text_changed inp ∧
  error = EmptyString ∧ result = trim (Fixer.stdout (Fixer.fixer inp)).
Proof.
  intros Hsw Hres.
  destruct (decide (exitcode = Str "-1")) as [-> | H1].
  { rewrite format_switch_no_status in Hsw.
    destruct (Fixer.error (Fixer.fixer inp)); simplify_eq/=. }
  destruct (decide (exitcode = Num 0)) as [-> | H0].
  { rewrite format_switch_no_errors in Hsw.
    destruct (negb _ && negb _) eqn:Hch; simplify_eq/=.
    apply text_changed_iff in Hch. auto. }
  destruct (decide (exitcode = Num 5)) as [-> | H5].
  { rewrite format_switch_partial in Hsw.
    destruct (negb _ && negb _) eqn:Hch.
    - simplify_eq/=. apply text_changed_iff in Hch. auto.
    - destruct (Fixer.error (Fixer.fixer inp)); simplify_eq/=. }
  destruct (format_switch_default fs inp stderr exitcode errorMsg H1 H0 H5)
    as [entries' Hd].
  rewrite Hd in Hsw. simplify_eq/=.
Qed.

(** At a guard [format] resolves with the empty text and leaves the table. *)
Lemma format_at_guard fs version table inp :
  Fixer.workspaceFolder inp = None ∨ Fixer.languageId inp ≠ "php"
  ∨ Fixer.fixerEnable inp = false →
  Fixer.outcome (Fixer.format fs version table inp) = Fixer.Resolve EmptyString ∧
  Fixer.table_after (Fixer.format fs version table inp) = table.
Proof.
  unfold Fixer.format. intros [-> | [Hl | ->]]; [done | |].
  - destruct (Fixer.workspaceFolder inp); [| done].
    by rewrite (proj2 (eqb_string_false _ _) Hl).
  - destruct (Fixer.workspaceFolder inp); [| done].
    by destruct (negb (eqb_string _ _)).
Qed.

(** The guards either stop the document or let it through. *)
Lemma past_guards_dec inp :
  past_guards inp ∨
  (Fixer.workspaceFolder inp = None ∨ Fixer.languageId inp ≠ "php"
   ∨ Fixer.fixerEnable inp = false).
Proof.
  unfold past_guards.
  destruct (Fixer.workspaceFolder inp) as [folder|]; [| by right; left].
  destruct (decide (Fixer.languageId inp = "php")) as [Hl | Hl]; [| by right; right; left].
  destruct (Fixer.fixerEnable inp); [| by right; right; right].
  left. split_and!; [by eexists | done | done].
Qed.

(** Past the guards, when the version call throws, [format] is rejected with
    that error and the table stays as it was. *)
Lemma format_version_throws fs table inp :
  past_guards inp →
  Fixer.outcome (Fixer.format fs None table inp) = Fixer.Throw (Fixer.TypeError "uri") ∧
  Fixer.table_after (Fixer.format fs None table inp) = table.
Proof.
  intros ([folder Hw] & Hl & He). unfold Fixer.format. by rewrite Hw, Hl, He.
Qed.

(** A text that is not empty comes out of [format] only past the guards,
    with the version call returned and [stderr] bound, under status 0 or 5
    with the text changed. *)
Lemma format_resolve_inv fs version table inp text :
  text ≠ EmptyString →
  Fixer.outcome (Fixer.format fs version table inp) = Fixer.Resolve text →
  past_guards inp ∧ is_Some (Fixer.stderr inp) ∧
  (∃ v, version = Some v ∧
     (format_exitcode v table inp = Num 0 ∨ format_exitcode v table inp = Num 5)) ∧
  text_changed inp ∧ text = trim (Fixer.stdout (Fixer.fixer inp)).
Proof.
  intros Htext Hout. destruct (past_guards_dec inp) as [Hg | Hg]; last first.
  { destruct (format_at_guard fs version table inp Hg) as [Hr _]. congruence. }
  destruct version as [v|]; last first.
  { destruct (format_version_throws fs table inp Hg) as [Hr _]. congruence. }
  destruct Hg as ([folder Hw] & Hl & He).
  destruct (Fixer.stderr inp) as [stderr|] eqn:Hs; last first.
  { rewrite (format_stderr_not_defined fs v table inp folder Hw Hl He Hs) in Hout.
    discriminate. }
  assert (Hpast := format_past_guards fs v table inp folder stderr Hw Hl He Hs).
  cbv zeta in Hpast.
  destruct (Fixer.format_switch _ _ _ _ _) as [e | [[[error result] message] entries]]
    eqn:Hsw; [congruence |].
  destruct Hpast as [Hpast _]. cbn [fst snd] in Hpast. rewrite Hpast in Hout.
  destruct (truthy error); [discriminate |]. injection Hout as ->.
  destruct (format_switch_result _ _ _ _ _ _ _ _ _ Hsw Htext) as (Hc & Hch & _ & Hres).
  split; [split_and!; [by eexists | done | done] |].
  split; [by eexists |]. split; [by exists v | done].
Qed.

(** And there it does come out. *)
Lemma format_resolve_changed fs v table inp :
  past_guards inp → is_Some (Fixer.stderr inp) →
  format_exitcode v table inp = Num 0 ∨ format_exitcode v table inp = Num 5 →
  text_changed inp →
  Fixer.outcome (Fixer.format fs (Some v) table inp)
    = Fixer.Resolve (trim (Fixer.stdout (Fixer.fixer inp))).
Proof.
  intros ([folder Hw] & Hl & He) [stderr Hs] Hc Hch.
  assert (Hpast := format_past_guards fs v table inp folder stderr Hw Hl He Hs).
  cbv zeta in Hpast.
  destruct Hc as [Hc | Hc]; rewrite Hc in Hpast.
  - rewrite format_switch_no_errors, (text_changed_true inp Hch) in Hpast.
    by destruct Hpast as [-> _].
  - rewrite format_switch_partial, (text_changed_true inp Hch) in Hpast.
    by destruct Hpast as [-> _].
Qed.

(** X6. [format] resolves with a text that is not empty exactly when the
    document passes the guards, the version call returns, the name [stderr]
    is bound, the mapped status is 0 or 5 and the trimmed output of the fixer
    is not empty and differs from the document; the text is then that
    trimmed output.  So in the module as it stands, where nothing binds
    [stderr], [format] never gives a replacement. *)
Theorem format_replaces_iff fs version table inp text :
  text ≠ EmptyString →
  Fixer.outcome (Fixer.format fs version table inp) = Fixer.Resolve text ↔
  past_guards inp ∧ is_Some (Fixer.stderr inp) ∧
  (∃ v, version = Some v ∧
     (format_exitcode v table inp = Num 0 ∨ format_exitcode v table inp = Num 5)) ∧
  text_changed inp ∧ text = trim (Fixer.stdout (Fixer.fixer inp)).
Proof.
  intros Htext. split; [by apply format_resolve_inv |].
  intros (Hg & Hs & (v & -> & Hc) & Hch & ->). by apply format_resolve_changed.
Qed.

(** X6 on a 3.x fixer that exits with 1 and a changed text, with [stderr]
    bound to the empty string. *)
Lemma format_replaces_iff_witness :
  Fixer.outcome
    (Fixer.format no_files (Some (Some "3.7.2")) errorMsgs
       (sample_input (Some EmptyString) (Some 1%Z) "<?php echo 1;" Fixer.error_null))
  = Fixer.Resolve "<?php echo 1;".
Proof.
  apply (format_replaces_iff no_files (Some (Some "3.7.2")) errorMsgs
           (sample_input (Some EmptyString) (Some 1%Z) "<?php echo 1;" Fixer.error_null)
           "<?php echo 1;").
  - discriminate.
  - split_and!.
    + split_and!; [by eexists | reflexivity | reflexivity].
    + by eexists.
    + exists (Some "3.7.2"). split; [reflexivity | left; vm_compute; reflexivity].
    + split; vm_compute; discriminate.
    + vm_compute. reflexivity.
Defined.

(** ** The fixer: the module as it stands *)

(** X23. In the module as it stands, where nothing binds the name [stderr]
    that [format] reads, [format] settles in one of three ways.  At a guard
    it resolves with the empty text.  Past the guards it is rejected with
    the error of the version call when that call throws, and otherwise with
    the error of reading [stderr], the status line being the last thing it
    logged.  It never reaches its switch: it leaves no message ('No fixable
    errors were found.' and the like). *)
Theorem format_as_it_stands fs version table inp :
  Fixer.stderr inp = None →
  let out := Fixer.format fs version table inp in
  (Fixer.outcome out = Fixer.Resolve EmptyString ∧ ¬ past_guards inp
   ∨ Fixer.outcome out = Fixer.Throw (Fixer.TypeError "uri") ∧ past_guards inp ∧
     version = None
   ∨ Fixer.outcome out = Fixer.Throw stderr_not_defined ∧ past_guards inp ∧
     ∃ v, version = Some v ∧
       last (Fixer.logged out) =
         Some (LogInfo ("FIXER STATUS: " +:+ template (format_exitcode v table inp) +:+
                        " - " +:+ format_errorMsg v table inp))) ∧
  Fixer.info_message out = EmptyString.
Proof.
  intros Hs out. subst out.
  destruct (past_guards_dec inp) as [Hg | Hstop].
  - destruct version as [v|].
    + destruct Hg as ([folder Hw] & Hl & He).
      unfold Fixer.format, format_errorMsg, format_exitcode. rewrite Hw, Hl, He, Hs. simpl.
      destruct (getMappedExitCode _ _ _ _) as [exitcode entries] eqn:Hmap. simpl.
      split; [| done]. right. right.
      split; [done |]. split; [split_and!; [by eexists | done | done] |].
      exists v. split; [done |]. rewrite Hmap. apply last_snoc.
    + destruct Hg as ([folder Hw] & Hl & He).
      unfold Fixer.format. rewrite Hw, Hl, He. simpl.
      split; [| done]. right. left.
      split; [done |]. split; [split_and!; [by eexists | done | done] | done].
  - assert (¬ past_guards inp) as Hng.
    { intros ([folder Hw] & Hl & He). destruct Hstop as [H | [H | H]]; congruence. }
    unfold Fixer.format. destruct Hstop as [-> | [Hl | ->]].
    + split; [| done]. by left.
    + destruct (Fixer.workspaceFolder inp); [| split; [by left | done]].
      rewrite (proj2 (eqb_string_false _ _) Hl). simpl. split; [by left | done].
    + destruct (Fixer.workspaceFolder inp); [| split; [by left | done]].
      destruct (negb (eqb_string _ _)); simpl; (split; [by left | done]).
Qed.

(** X23 on a 3.x fixer that exits with 1 and a changed text. *)
Lemma format_as_it_stands_witness :
  let out :=
    Fixer.format no_files (Some (Some "3.7.2")) errorMsgs
      (sample_input None (Some 1%Z) "<?php echo 1;" Fixer.error_null) in
  Fixer.outcome out = Fixer.Throw (Fixer.ReferenceError "stderr") ∧
  last (Fixer.logged out)
    = Some (LogInfo "FIXER STATUS: 0 - No errors were found or all errors were fixed") ∧
  Fixer.info_message out = EmptyString.
Proof.
  intros out.
  destruct (format_as_it_stands no_files (Some (Some "3.7.2")) errorMsgs
              (sample_input None (Some 1%Z) "<?php echo 1;" Fixer.error_null) eq_refl)
    as [[(Hout & _) | [(Hout & _) | (Hout & _ & v & Hv & Hlog)]] Hmsg].
  - vm_compute in Hout. discriminate.
  - vm_compute in Hout. discriminate.
  - injection Hv as <-. split_and!; [exact Hout | exact Hlog | exact Hmsg].
Defined.



(** ** The fixer: a missing status under a 4.x tool *)



(** ** The fixer and the sniffer share the message table *)

(** Past the guards, once the version call has returned, [format] has asked
    [getErrorMsg] for the fixer, however the run ends. *)
Lemma format_table_after fs version table inp :
  past_guards inp →
  Fixer.table_after (Fixer.format fs (Some version) table inp)
    = <["0" := "No errors were found or all errors were fixed"]> table.
Proof.
  intros ([folder Hw] & Hl & He). unfold Fixer.format. rewrite Hw, Hl, He. simpl.
  destruct (getMappedExitCode _ _ _ _) as [exitcode entries]. simpl.
  destruct (Fixer.stderr inp) as [stderr|]; [| done].
  destruct (Fixer.format_switch _ _ _ _ _) as [e | [[[error result] message] log3]];
    simpl; [done |].
  by destruct (truthy error).
Qed.

(** X9. A run of [format] that passes its guards and in which the version
    call returns leaves the fixer's text in entry 0 of the message table,
    however the run ends, also when it ends at the read of [stderr]; a run
    that returns at a guard, or in which the version call throws, leaves the
    table as it was.  After a run of the first kind, the status line that
    the sniffer logs for exit code 0, with a 3.x or a 4.x tool, reads 'No
    errors were found or all errors were fixed'. *)
Theorem format_changes_sniffer_status_line fs version table inp :
  let out := Fixer.format fs version table inp in
  (Fixer.workspaceFolder inp = None ∨ Fixer.languageId inp ≠ "php"
   ∨ Fixer.fixerEnable inp = false ∨ version = None →
     Fixer.table_after out = table) ∧
  (past_guards inp → is_Some version →
     Fixer.table_after out
       = <["0" := "No errors were found or all errors were fixed"]> table ∧
     ∀ v, startsWith v "3." = true ∨ startsWith v "4." = true →
       status_line (Fixer.table_after out) (Some v) (Some (Num 0))
       = [LogInfo "SNIFFER STATUS: 0 - No errors were found or all errors were fixed"]).
Proof.
  intros out. subst out. split.
  - intros Hg.
    destruct (past_guards_dec inp) as [Hp | Hstop].
    + destruct Hg as [Hw | [Hl | [He | ->]]].
      * destruct Hp as ([folder Hf] & _). congruence.
      * by destruct Hp as (_ & Hl' & _).
      * destruct Hp as (_ & _ & He'). congruence.
      * by apply format_version_throws.
    + by apply format_at_guard.
  - intros Hp [snifferVersionString ->].
    rewrite (format_table_after fs snifferVersionString table inp Hp).
    split; [done |]. intros v Hv. unfold status_line.
    assert (getMappedExitCode
              (<["0" := "No errors were found or all errors were fixed"]> table)
              (Some v) (Some (Num 0)) sniffer = (Num 0, [])) as ->.
    { destruct Hv as [H3 | H4].
      - by rewrite (getMappedExitCode_3x _ v _ _ H3).
      - unfold getMappedExitCode. rewrite H4. simpl. f_equal.
        change (propertyKey (Num 0)) with (pretty 0%Z).
        destruct (map4xStatusFromErrors _ !! pretty 0%Z) as [value|] eqn:Hv; [| done].
        simpl. by apply map4xStatusFromErrors_lookup_number in Hv. }
    unfold getErrorMsg. simpl. by rewrite lookup_insert_eq.
Qed.

(** ** The fixer: the formatting provider *)

(** X10. The provider shows exactly one error message, whatever [format]
    gives, and rejects unless [format] resolved with a text that is not
    empty.  In the module as it stands, where nothing binds [stderr], it
    never resolves: past the guards of [format], once the version call has
    returned, it shows the error of the read of [stderr].  Where that name
    is bound and the fixer changed the text (status 0 or 5), the provider
    resolves with one edit, the trimmed output over the full range of the
    document whatever range was asked for, and still shows its 'empty
    document' error, which it throws after it has looked at the text,
    whatever the text is. *)
Theorem provider_shows_error fs version table document range inp :
  let provided := provideDocumentFormattingEdits fs version table document range inp in
  length provided.2 = 1%nat ∧
  (Fixer.stderr inp = None →
     provided.1 = FixerCommand.ProviderReject ∧
     (past_guards inp → is_Some version →
        provided.2 = [FixerCommand.ShownErrorObject stderr_not_defined])) ∧
  (∀ v, version = Some v → past_guards inp → is_Some (Fixer.stderr inp) →
     format_exitcode v table inp = Num 0 ∨ format_exitcode v table inp = Num 5 →
     text_changed inp →
     provided =
       (FixerCommand.ProviderResolve
          [{| FixerCommand.edit_range := FixerCommand.documentFullRange document;
              FixerCommand.newText := trim (Fixer.stdout (Fixer.fixer inp)) |}],
        [empty_document_error])).
Proof.
  intros provided. subst provided. unfold provideDocumentFormattingEdits.
  split_and!.
  - unfold FixerCommand.registerFixerAsDocumentProvider.
    destruct (Fixer.outcome _) as [text | reason | e]; [| done | done].
    by destruct (negb _).
  - intros Hs. split.
    + unfold FixerCommand.registerFixerAsDocumentProvider.
      destruct (Fixer.outcome _) as [text | reason | e] eqn:Hout; [| done | done].
      destruct (decide (text = EmptyString)) as [-> | Htext]; [done |].
      apply (format_resolve_inv fs version table inp text Htext) in Hout
        as (_ & [stderr Hb] & _). congruence.
    + intros ([folder Hw] & Hl & He) [v ->].
      by rewrite (format_stderr_not_defined fs v table inp folder Hw Hl He Hs).
  - intros v -> Hg Hb Hc Hch.
    assert (Fixer.outcome (Fixer.format fs (Some v) table inp)
            = Fixer.Resolve (trim (Fixer.stdout (Fixer.fixer inp)))) as ->.
    { by apply format_resolve_changed. }
    unfold FixerCommand.registerFixerAsDocumentProvider.
    rewrite bool_decide_eq_false_2; [done |].
    rewrite length_zero_empty. by destruct Hch.
Qed.

(** X10 on a 3.x fixer that changed the text, asked for the first line only:
    in the module as it stands, and with [stderr] bound to the empty
    string. *)
Lemma provider_shows_error_witness :
  let document := {| FixerCommand.lineLengths := [14; 0]%nat |} in
  let first_line :=
    {| FixerCommand.range_start := {| FixerCommand.line := 0; FixerCommand.character := 0 |};
       FixerCommand.range_end := {| FixerCommand.line := 0; FixerCommand.character := 14 |} |} in
  let provided bound :=
    provideDocumentFormattingEdits no_files (Some (Some "3.7.2")) errorMsgs document
      first_line (sample_input bound (Some 1%Z) "<?php echo 1;" Fixer.error_null) in
  provided None
  = (FixerCommand.ProviderReject, [FixerCommand.ShownErrorObject stderr_not_defined]) ∧
  provided (Some EmptyString)
  = (FixerCommand.ProviderResolve
       [{| FixerCommand.edit_range :=
             {| FixerCommand.range_start :=
                  {| FixerCommand.line := 0; FixerCommand.character := 0 |};
                FixerCommand.range_end :=
                  {| FixerCommand.line := 1; FixerCommand.character := 0 |} |};
           FixerCommand.newText := "<?php echo 1;" |}],
     [empty_document_error]).
Proof.
  intros document first_line provided. split.
  - destruct (proj1 (proj2 (provider_shows_error no_files (Some (Some "3.7.2")) errorMsgs
                              document first_line
                              (sample_input None (Some 1%Z) "<?php echo 1;"
                                 Fixer.error_null))) eq_refl) as [H1 H2].
    apply injective_projections; [exact H1 |].
    apply H2; [split_and! |]; by eexists.
  - refine (proj2 (proj2 (provider_shows_error no_files (Some (Some "3.7.2")) errorMsgs
                            document first_line
                            (sample_input (Some EmptyString) (Some 1%Z) "<?php echo 1;"
                               Fixer.error_null))) (Some "3.7.2") eq_refl _ _ _ _).
    + split_and!; by eexists.
    + by eexists.
    + left. vm_compute. reflexivity.
    + split; vm_compute; discriminate.
Defined.

(** ** The command lines *)

Lemma lacks_true arg text : SnifferCommand.lacks arg text = true ↔ ¬ contains arg text.
Proof. unfold SnifferCommand.lacks. by rewrite negb_true_iff, includes_false. Qed.

Lemma sniffer_additionalArguments_spec snifferArguments arg :
  arg ∈ SnifferCommand.additionalArguments snifferArguments ↔
  arg ∈ snifferArguments ∧ free_for_sniffer arg.
Proof.
  unfold SnifferCommand.additionalArguments, free_for_sniffer.
  rewrite list_elem_of_filter, !andb_true_iff, !lacks_true, !negb_true_iff,
    !eqb_string_false.
  tauto.
Qed.

Lemma fixer_additionalArguments_spec fixerArguments arg :
  arg ∈ FixerCommand.additionalArguments fixerArguments ↔
  arg ∈ fixerArguments ∧ free_for_fixer arg.
Proof.
  unfold FixerCommand.additionalArguments, free_for_fixer.
  rewrite list_elem_of_filter, !andb_true_iff, !lacks_true, !negb_true_iff,
    !eqb_string_false.
  tauto.
Qed.

Lemma occurrences_app x l1 l2 :
  occurrences x (l1 ++ l2) = (occurrences x l1 + occurrences x l2)%nat.
Proof. unfold occurrences. by rewrite filter_app, length_app. Qed.

Lemma occurrences_absent x l : x ∉ l → occurrences x l = 0%nat.
Proof.
  unfold occurrences. induction l as [|a l IH]; intros Hx; [done |].
  rewrite not_elem_of_cons in Hx. destruct Hx as [Hne Hx].
  rewrite filter_cons_False by (intros ->; done). by apply IH.
Qed.

(** An option with a value is neither of the two flags. *)
Lemma option_is_no_flag name value :
  ("--" +:+ name) +:+ value ≠ "-" ∧ ("--" +:+ name) +:+ value ≠ "-q".
Proof.
  change (("--" +:+ name) +:+ value) with (String "-" (String "-" (name +:+ value))).
  by split.
Qed.

(** Both command lines, laid out. *)
Lemma sniffer_getArgs_eq filePath standard extra :
  SnifferCommand.getArgs filePath standard extra =
    ["--report=json"; "-q"] ++ standard_option standard ++
    [stdin_path_option filePath; "-"] ++ extra.
Proof.
  unfold SnifferCommand.getArgs, standard_option, stdin_path_option, eqb_string.
  by case_bool_decide.
Qed.

Lemma fixer_getArgs_eq filePath standard extra :
  FixerCommand.getArgs filePath standard extra =
    ["-q"] ++ standard_option standard ++ [stdin_path_option filePath] ++ extra ++ ["-"].
Proof.
  unfold FixerCommand.getArgs, standard_option, stdin_path_option, eqb_string.
  case_bool_decide; simpl; by rewrite <- ?app_assoc.
Qed.

(** The options hold neither flag. *)
Lemma options_occurrences filePath standard :
  occurrences "-" (standard_option standard ++ [stdin_path_option filePath]) = 0%nat ∧
  occurrences "-q" (standard_option standard ++ [stdin_path_option filePath]) = 0%nat.
Proof.
  destruct (option_is_no_flag "standard=" (dquote +:+ standard +:+ dquote)) as [Hs1 Hs2].
  destruct (option_is_no_flag "stdin-path=" (dquote +:+ filePath +:+ dquote)) as [Hp1 Hp2].
  split; apply occurrences_absent; unfold standard_option, stdin_path_option;
    case_bool_decide; simpl; rewrite ?not_elem_of_cons; split_and?; auto using not_elem_of_nil.
Qed.

(** X11. Whatever arguments the user has configured for the sniffer, the
    command line [validate] builds is --report=json, -q, the standard if
    there is one, the path of the document, '-', and then the user's
    arguments that mention none of --report, --standard and --stdin-path and
    are neither '-q' nor '-', in their order.  So it holds '-' (read standard
    input) exactly once and '-q' exactly once, and a configured argument
    cannot override the report format, the standard or the path. *)
Theorem sniffer_lintArgs_reserved filePath standard snifferArguments :
  let args := SnifferCommand.lintArgs filePath standard snifferArguments in
  occurrences "-" args = 1%nat ∧
  occurrences "-q" args = 1%nat ∧
  ∃ kept,
    args = ["--report=json"; "-q"] ++ standard_option standard ++
           [stdin_path_option filePath; "-"] ++ kept ∧
    sublist kept snifferArguments ∧
    ∀ arg, arg ∈ kept ↔ arg ∈ snifferArguments ∧ free_for_sniffer arg.
Proof.
  intros args. subst args. unfold SnifferCommand.lintArgs.
  rewrite sniffer_getArgs_eq.
  destruct (options_occurrences filePath standard) as [Hdash Hq].
  assert (occurrences "-" (SnifferCommand.additionalArguments snifferArguments) = 0%nat
          ∧ occurrences "-q" (SnifferCommand.additionalArguments snifferArguments) = 0%nat)
    as [Hk1 Hk2].
  { split; apply occurrences_absent; rewrite sniffer_additionalArguments_spec;
      unfold free_for_sniffer; tauto. }
  rewrite occurrences_app in Hdash, Hq.
  split_and!.
  - rewrite !occurrences_app, Hk1. unfold occurrences at 1 3. simpl. lia.
  - rewrite !occurrences_app, Hk2. unfold occurrences at 1 3. simpl. lia.
  - exists (SnifferCommand.additionalArguments snifferArguments). split_and!.
    + done.
    + apply sublist_filter.
    + apply sniffer_additionalArguments_spec.
Qed.

(** X12. Whatever arguments the user has configured for the fixer, the
    command line [format] builds is -q, the standard if there is one, the
    path of the document, then the user's arguments that mention neither
    --standard nor --stdin-path and are neither '-q' nor '-', in their
    order, and '-' last.  So it holds '-' and '-q' exactly once each.
    Unlike the sniffer's, the fixer's filter lets an argument that mentions
    --report through. *)
Theorem fixer_lintArgs_reserved filePath standard fixerArguments :
  let args := FixerCommand.lintArgs filePath standard fixerArguments in
  last args = Some "-" ∧
  occurrences "-" args = 1%nat ∧
  occurrences "-q" args = 1%nat ∧
  (∃ kept,
     args = ["-q"] ++ standard_option standard ++ [stdin_path_option filePath] ++
            kept ++ ["-"] ∧
     sublist kept fixerArguments ∧
     ∀ arg, arg ∈ kept ↔ arg ∈ fixerArguments ∧ free_for_fixer arg) ∧
  FixerCommand.lintArgs filePath standard ["--report=summary"]
    = ["-q"] ++ standard_option standard ++
      [stdin_path_option filePath; "--report=summary"; "-"].
Proof.
  intros args. subst args. unfold FixerCommand.lintArgs.
  rewrite !fixer_getArgs_eq.
  destruct (options_occurrences filePath standard) as [Hdash Hq].
  assert (occurrences "-" (FixerCommand.additionalArguments fixerArguments) = 0%nat
          ∧ occurrences "-q" (FixerCommand.additionalArguments fixerArguments) = 0%nat)
    as [Hk1 Hk2].
  { split; apply occurrences_absent; rewrite fixer_additionalArguments_spec;
      unfold free_for_fixer; tauto. }
  rewrite occurrences_app in Hdash, Hq.
  split_and!.
  - rewrite !app_assoc. apply last_snoc.
  - rewrite !occurrences_app, Hk1. unfold occurrences at 1 3 4. simpl. lia.
  - rewrite !occurrences_app, Hk2. unfold occurrences at 1 3 4. simpl. lia.
  - exists (FixerCommand.additionalArguments fixerArguments). split_and!.
    + done.
    + apply sublist_filter.
    + apply fixer_additionalArguments_spec.
  - done.
Qed.

(** ** The sniffer: the version of the tool *)

Lemma append_cons c (s t : string) : String c s +:+ t = String c (s +:+ t).
Proof. done. Qed.

Lemma append_nil_l (t : string) : EmptyString +:+ t = t.
Proof. done. Qed.

(** A run of characters that satisfy [p], followed by one that does not or
    by nothing, is what [span] takes. *)
Lemma span_app p run rest :
  all_chars p run = true →
  match rest with EmptyString => True | String c _ => p c = false end →
  SnifferCommand.span p (run +:+ rest) = (run, rest).
Proof.
  intros Hrun Hrest. induction run as [|c run IH].
  - rewrite append_nil_l. destruct rest as [|c rest]; [done |]. simpl. by rewrite Hrest.
  - simpl in Hrun. apply andb_true_iff in Hrun as [Hc Hrun].
    rewrite append_cons. simpl. by rewrite Hc, (IH Hrun).
Qed.

Lemma digits1_app run rest :
  number run →
  match rest with EmptyString => True | String c _ => SnifferCommand.is_digit c = false end →
  SnifferCommand.digits1 (run +:+ rest) = Some (run, rest).
Proof.
  intros [Hne Hrun] Hrest. unfold SnifferCommand.digits1.
  rewrite (span_app _ _ _ Hrun Hrest). by destruct run.
Qed.

(** The pattern cannot start at a character that is no digit. *)
Lemma match_here_no_digit c s :
  SnifferCommand.is_digit c = false → SnifferCommand.match_here (String c s) = None.
Proof.
  intros Hc. unfold SnifferCommand.match_here, SnifferCommand.digits1. simpl.
  by rewrite Hc.
Qed.

(** The search skips text without digits. *)
Lemma match_semver_skip pre s :
  no_digit pre → SnifferCommand.match_semver (pre +:+ s) = SnifferCommand.match_semver s.
Proof.
  unfold no_digit. induction pre as [|c pre IH]; intros Hpre; [done |].
  simpl in Hpre. apply andb_true_iff in Hpre as [Hc Hpre].
  rewrite negb_true_iff in Hc. rewrite append_cons. simpl.
  rewrite match_here_no_digit by done. by apply IH.
Qed.

Lemma match_semver_no_digit s : no_digit s → SnifferCommand.match_semver s = None.
Proof.
  unfold no_digit. induction s as [|c s IH]; intros Hs; [done |].
  simpl in Hs. apply andb_true_iff in Hs as [Hc Hs]. rewrite negb_true_iff in Hc.
  simpl. rewrite match_here_no_digit by done. by apply IH.
Qed.

Lemma dot_app rest : SnifferCommand.dot ("." +:+ rest) = Some rest.
Proof. done. Qed.

Lemma prerelease_ends_version post :
  ends_version post → SnifferCommand.prerelease post = EmptyString.
Proof.
  destruct post as [|c post]; [done |]. intros [_ Hc].
  unfold SnifferCommand.prerelease.
  by destruct c as [[] [] [] [] [] [] [] []].
Qed.

Lemma append_nil_r (s : string) : s +:+ EmptyString = s.
Proof. induction s as [|c s IH]; [done |]. by rewrite append_cons, IH. Qed.

(** The pattern at the head of a plain three-part version. *)
Lemma match_here_version major minor patch post :
  number major → number minor → number patch → ends_version post →
  SnifferCommand.match_here (major +:+ "." +:+ minor +:+ "." +:+ patch +:+ post)
    = Some (major +:+ "." +:+ minor +:+ "." +:+ patch).
Proof.
  intros Hmajor Hminor Hpatch Hpost. unfold SnifferCommand.match_here.
  rewrite (digits1_app major) by done. cbn [mbind option_bind].
  rewrite dot_app. cbn [mbind option_bind].
  rewrite (digits1_app minor) by done. cbn [mbind option_bind].
  rewrite dot_app. cbn [mbind option_bind].
  rewrite (digits1_app patch); [| done | by destruct post as [|c post]; [| destruct Hpost]].
  cbn [mbind option_bind].
  by rewrite prerelease_ends_version, append_nil_r.
Qed.

(** A match at the head is the leftmost one. *)
Lemma match_semver_found s m :
  SnifferCommand.match_here s = Some m → SnifferCommand.match_semver s = Some m.
Proof. intros H. destruct s; cbn [SnifferCommand.match_semver]; by rewrite H. Qed.

(** X13. When the trimmed output of the tool's version call is text without
    digits, then a version of three numbers joined by dots, then nothing or
    a character that is neither a digit nor a minus sign, [snifferVersion]
    returns exactly those three numbers and dots, for a document in a
    workspace folder. *)
Theorem snifferVersion_reads_version folder stdout pre major minor patch post :
  trim stdout = pre +:+ major +:+ "." +:+ minor +:+ "." +:+ patch +:+ post →
  no_digit pre → number major → number minor → number patch → ends_version post →
  SnifferCommand.snifferVersion (Some (Some folder)) stdout
    = Some (Some (major +:+ "." +:+ minor +:+ "." +:+ patch)).
Proof.
  intros Hout Hpre Hmajor Hminor Hpatch Hpost. unfold SnifferCommand.snifferVersion.
  rewrite Hout, match_semver_skip by done.
  assert (SnifferCommand.match_semver (major +:+ "." +:+ minor +:+ "." +:+ patch +:+ post)
          = Some (major +:+ "." +:+ minor +:+ "." +:+ patch)) as ->; [| done].
  by rewrite match_semver_found with (m := major +:+ "." +:+ minor +:+ "." +:+ patch)
    by (by apply match_here_version).
Qed.

(** X13 on the line PHP_CodeSniffer prints. *)
Lemma snifferVersion_reads_version_witness :
  SnifferCommand.snifferVersion (Some (Some 0%nat))
    ("PHP_CodeSniffer version 3.7.2 (stable) by Squiz (http://www.squiz.net)" +:+ nl)
  = Some (Some "3.7.2").
Proof.
  apply (snifferVersion_reads_version 0%nat _ "PHP_CodeSniffer version " "3" "7" "2"
           " (stable) by Squiz (http://www.squiz.net)").
  - vm_compute. reflexivity.
  - vm_compute. reflexivity.
  - split; [discriminate | reflexivity].
  - split; [discriminate | reflexivity].
  - split; [discriminate | reflexivity].
  - split; [reflexivity | discriminate].
Defined.

(** X14. When the output of the version call holds no digit at all (the
    tool printed nothing, or only an error text), [snifferVersion] returns
    the empty string, not [undefined]; with that version
    [getMappedExitCode] hands every code back unmapped (the sentinel '-1'
    for a missing one) and logs nothing about the version. *)
Theorem unversioned_tool_passes_codes folder stdout table code type :
  no_digit (trim stdout) →
  SnifferCommand.snifferVersion (Some (Some folder)) stdout = Some (Some EmptyString) ∧
  getMappedExitCode table (Some EmptyString) code type
    = (match code with Some c => c | None => Str "-1" end, []).
Proof.
  intros Hout. split.
  - unfold SnifferCommand.snifferVersion. by rewrite match_semver_no_digit.
  - unfold getMappedExitCode. simpl. by destruct code.
Qed.

(** X14 on a tool that printed nothing. *)
Lemma unversioned_tool_passes_codes_witness :
  SnifferCommand.snifferVersion (Some (Some 0%nat)) EmptyString = Some (Some EmptyString) ∧
  getMappedExitCode errorMsgs (Some EmptyString) (Some (Num 2)) sniffer = (Num 2, []).
Proof.
  apply (unversioned_tool_passes_codes 0%nat EmptyString errorMsgs (Some (Num 2)) sniffer).
  reflexivity.
Defined.

(** ** The sniffer: what the runner map holds *)

Section RegistryFacts.

Variable JSON_parse : string → ParseResult.
Variable PHPCSMessageType_ERROR : string.

Abbreviation step := (step JSON_parse PHPCSMessageType_ERROR).
Abbreviation run_events := (run_events JSON_parse PHPCSMessageType_ERROR).

Lemma registry_start : registry_inv start.
Proof. split; simpl; intros; simplify_eq. Qed.

Lemma registry_validate c uri languageId workspaceFolder snifferEnable standard showSources :
  scheduler_inv c → registry_inv c →
  registry_inv
    (step c (EvValidate uri languageId workspaceFolder snifferEnable standard showSources)).
Proof.
  intros [Hlen Hrun Hlive Hpend Hreg] [Rlive Rcanc]. simpl.
  destruct (validate_cases uri languageId workspaceFolder snifferEnable (state c))
    as [-> | (s' & -> & Hsrc & Hmap)].
  { by split. }
  assert (Hretlen := retire_oldRunner_length uri (state c)).
  split; simpl.
  - intros uri' r. rewrite Hmap, lookup_insert_Some.
    intros [[<- <-] | [Hne Hr]].
    + split.
      * unfold live. rewrite Hsrc, <- Hretlen. by apply list_lookup_middle.
      * eexists _, _. split.
        { rewrite <- Hlen. by apply list_lookup_middle. }
        done.
    + destruct (Rlive _ _ Hr) as [Hl (run & b & Hrr & Huri)].
      assert (r < length (tokenSources (state c))) as Hlt by eauto.
      split.
      * unfold live. rewrite Hsrc, lookup_app_l by lia.
        rewrite retire_oldRunner_lookup.
        destruct (runnerCancellations (state c) !! uri) as [old|] eqn:Hold; [| done].
        destruct (decide (r = old)) as [-> | Hro]; [| done].
        destruct (Rlive _ _ Hold) as [_ (run' & b' & Hrr' & Huri')]. congruence.
      * exists run, b. split; [by apply lookup_app_l_Some | done].
  - intros r t. rewrite Hsrc. intros Ht Hc.
    apply lookup_snoc_Some in Ht as [[Hlt Ht] | [_ <-]]; [| done].
    rewrite retire_oldRunner_lookup in Ht.
    destruct (runnerCancellations (state c) !! uri) as [old|]; [| eauto].
    destruct (decide (r = old)) as [-> | Hro]; [| eauto].
    destruct (tokenSources (state c) !! old); by simplify_eq/=.
Qed.

Lemma registry_close c runner fs code stdout stderr version table :
  scheduler_inv c → registry_inv c →
  registry_inv (step c (EvClose runner fs code stdout stderr version table)).
Proof.
  intros [Hlen Hrun Hlive Hpend Hreg] [Rlive Rcanc]. simpl.
  destruct (runs c !! runner) as [[run []]|] eqn:Hr; try by split.
  assert (run_runner run = runner) as Hrr by eauto.
  destruct (on_close_runners JSON_parse PHPCSMessageType_ERROR fs run stdout stderr (state c))
    as [[Hsrc Hmap] | (Hc & Hsrc & Hmap)];
    set (s' := (Sniffer.on_close _ _ fs run stdout stderr (state c)).2) in *.
  - split; simpl; unfold live; simpl; rewrite ?Hsrc, ?Hmap; [| done].
    intros uri r Hm. destruct (Rlive _ _ Hm) as [Hl (run' & b & Hr' & Huri)].
    split; [done |]. destruct (decide (r = runner)) as [-> | Hne].
    + exists run, true. split; [| congruence].
      apply list_lookup_insert_eq. by eapply lookup_lt_Some.
    + exists run', b. by rewrite list_lookup_insert_ne.
  - rewrite Hrr in *. split; simpl; unfold live; simpl; rewrite ?Hsrc, ?Hmap.
    + intros uri r. rewrite lookup_delete_Some. intros [Hne Hm].
      destruct (Rlive _ _ Hm) as [Hl (run' & b & Hr' & Huri)].
      assert (r ≠ runner) as Hrn by (intros ->; congruence).
      split; [by rewrite list_lookup_alter_ne |].
      exists run', b. by rewrite list_lookup_insert_ne.
    + intros r t Ht Hcanc. destruct (decide (r = runner)) as [-> | Hne].
      * rewrite list_lookup_alter_eq in Ht.
        destruct (tokenSources (state c) !! runner); by simplify_eq/=.
      * rewrite list_lookup_alter_ne in Ht by done. eauto.
Qed.

Lemma registry_step c ev : scheduler_inv c → registry_inv c → registry_inv (step c ev).
Proof.
  destruct ev.
  - apply registry_validate.
  - apply registry_close.
  - intros _ []. by split.
  - intros _ []. by split.
Qed.

Lemma registry_run_events evs : registry_inv (run_events evs).
Proof.
  induction evs as [|ev evs IH] using rev_ind.
  - apply registry_start.
  - assert (Hinv := inv_run_events JSON_parse PHPCSMessageType_ERROR evs).
    unfold Sniffer.run_events in *. rewrite foldl_app. simpl.
    by apply registry_step.
Qed.

End RegistryFacts.

(** X15. In every configuration the scheduler can reach, the runner map
    holds exactly the live token sources: the token source of a run is
    neither cancelled nor disposed exactly when the map holds it under the
    document of the run, every runner in the map belongs to a run of that
    document, and every cancelled token source has been disposed. *)
Theorem runner_map_holds_the_live
    (JSON_parse : string → ParseResult) (PHPCSMessageType_ERROR : string)
    (evs : list Event) :
  let c := run_events JSON_parse PHPCSMessageType_ERROR evs in
  (∀ r run b, runs c !! r = Some (run, b) →
     (live r (state c) ↔ runnerCancellations (state c) !! run_uri run = Some r)) ∧
  (∀ uri r, runnerCancellations (state c) !! uri = Some r →
     ∃ run b, runs c !! r = Some (run, b) ∧ run_uri run = uri) ∧
  (∀ r t, tokenSources (state c) !! r = Some t →
     isCancellationRequested t = true → isDisposed t = true).
Proof.
  intros c.
  assert (Hinv := inv_run_events JSON_parse PHPCSMessageType_ERROR evs).
  assert (Hreg := registry_run_events JSON_parse PHPCSMessageType_ERROR evs).
  fold c in Hinv, Hreg. destruct Hinv as [_ _ Hlive _ _]. destruct Hreg as [Rlive Rcanc].
  split_and!.
  - intros r run b Hr. split; [by eapply Hlive |]. intros Hm. by apply Rlive in Hm as [? _].
  - intros uri r Hm. by apply Rlive in Hm as [_ ?].
  - done.
Qed.

(** ** The sniffer: the cancellation race *)

(** X16. When the process of a run closes after another run has taken its
    place in the map (or the map no longer holds it), the handler finds the
    token cancelled, whatever the process printed: the diagnostics, the
    runner map and the token sources stay as they are, so the diagnostics of
    the document can only come from the newer run. *)
Theorem stale_run_changes_nothing
    (JSON_parse : string → ParseResult) (PHPCSMessageType_ERROR : string)
    (evs : list Event) r run fs code stdout stderr version table :
  let c := run_events JSON_parse PHPCSMessageType_ERROR evs in
  runs c !! r = Some (run, false) →
  runnerCancellations (state c) !! run_uri run ≠ Some r →
  let c' := step JSON_parse PHPCSMessageType_ERROR c
              (EvClose r fs code stdout stderr version table) in
  token_cancelled (run_runner run) (state c) = true ∧
  diagnosticCollection (state c') = diagnosticCollection (state c) ∧
  runnerCancellations (state c') = runnerCancellations (state c) ∧
  tokenSources (state c') = tokenSources (state c).
Proof.
  intros c Hr Hm c'.
  assert (Hc := superseded_run_is_cancelled JSON_parse PHPCSMessageType_ERROR evs r run
                  Hr Hm).
  fold c in Hc. split; [done |]. subst c'. simpl. rewrite Hr. simpl.
  destruct (on_close_early JSON_parse PHPCSMessageType_ERROR fs run stdout stderr (state c))
    as (_ & Hd & Hmap & Hsrc & _); [by rewrite Hc | done].
Qed.

(** X16 on two validations of one document: the first run closes with a
    good report after the second has started. *)
Lemma stale_run_changes_nothing_witness :
  let c := run_events sample_parse "ERROR" [sample_validate; sample_validate] in
  let c' := step sample_parse "ERROR" c (sample_close 0 sample_report_text) in
  token_cancelled 0 (state c) = true ∧
  diagnosticCollection (state c') = diagnosticCollection (state c) ∧
  runnerCancellations (state c') = runnerCancellations (state c) ∧
  tokenSources (state c') = tokenSources (state c).
Proof.
  apply (stale_run_changes_nothing sample_parse "ERROR"
           [sample_validate; sample_validate] 0%nat sample_run no_files (Some (Num 0))
           sample_report_text EmptyString (Some "3.7.2") errorMsgs).
  - reflexivity.
  - vm_compute. discriminate.
Defined.

(** ** The sniffer: runs that outlive their document, and runs that print
    nothing *)

(** X17. Closing a document removes its diagnostics but does not cancel its
    run: when the run in the map closes afterwards with a report whose
    messages all have a position (line and column from 1 on), the diagnostics
    of the report, one for each message at its position counted from 0, are
    published for the closed document. *)
Theorem closed_document_run_still_publishes
    (JSON_parse : string → ParseResult) (PHPCSMessageType_ERROR : string)
    (evs : list Event) r run fs code stdout stderr version table report :
  let c := run_events JSON_parse PHPCSMessageType_ERROR evs in
  runs c !! r = Some (run, false) →
  runnerCancellations (state c) !! run_uri run = Some r →
  stdout ≠ EmptyString →
  JSON_parse stdout = ParseOk report →
  Forall positioned (report_messages report) →
  let c1 := step JSON_parse PHPCSMessageType_ERROR c (EvCloseDocument (run_uri run)) in
  let c2 := step JSON_parse PHPCSMessageType_ERROR c1
              (EvClose r fs code stdout stderr version table) in
  diagnosticCollection (state c1) !! run_uri run = None ∧
  runnerCancellations (state c1) = runnerCancellations (state c) ∧
  tokenSources (state c1) = tokenSources (state c) ∧
  ∃ diagnostics,
    diagnosticCollection (state c2) !! run_uri run = Some diagnostics ∧
    Forall2 (zero_based PHPCSMessageType_ERROR) (report_messages report) diagnostics.
Proof.
  intros c Hr Hm Hne Hp Hall c1 c2.
  assert (Hinv := inv_run_events JSON_parse PHPCSMessageType_ERROR evs).
  assert (Hreg := registry_run_events JSON_parse PHPCSMessageType_ERROR evs).
  fold c in Hinv, Hreg. destruct Hinv as [_ Hrun _ _ _]. destruct Hreg as [Rlive _].
  split_and!; [apply lookup_delete_eq | done | done |].
  subst c2 c1. simpl. rewrite Hr. simpl.
  destruct (on_close_parsed JSON_parse PHPCSMessageType_ERROR fs run stdout stderr
              (clearDocumentDiagnostics (run_uri run) (state c)) report)
    as (diagnostics & -> & Hzero); [| done | done | done |].
  - unfold token_cancelled. simpl. rewrite (Hrun _ _ _ Hr).
    destruct (Rlive _ _ Hm) as [Hl _]. unfold live in Hl. by rewrite Hl.
  - exists diagnostics. split; [apply lookup_insert_eq | done].
Qed.

(** X17 on the sample document. *)
Lemma closed_document_run_still_publishes_witness :
  let c := run_events sample_parse "ERROR" [sample_validate] in
  let c1 := step sample_parse "ERROR" c (EvCloseDocument "file:///a.php") in
  let c2 := step sample_parse "ERROR" c1 (sample_close 0 sample_report_text) in
  diagnosticCollection (state c1) !! "file:///a.php" = None ∧
  runnerCancellations (state c1) = runnerCancellations (state c) ∧
  tokenSources (state c1) = tokenSources (state c) ∧
  ∃ diagnostics,
    diagnosticCollection (state c2) !! "file:///a.php" = Some diagnostics ∧
    Forall2 (zero_based "ERROR") (report_messages sample_report) diagnostics.
Proof.
  apply (closed_document_run_still_publishes sample_parse "ERROR" [sample_validate]
           0%nat sample_run no_files (Some (Num 0)) sample_report_text EmptyString
           (Some "3.7.2") errorMsgs sample_report).
  - reflexivity.
  - reflexivity.
  - discriminate.
  - vm_compute. reflexivity.
  - repeat constructor; simpl; lia.
Defined.

(** X18. A run whose process closes with nothing on stdout takes the early
    return: nothing is published or cleared, and its token source is neither
    disposed nor taken out of the map.  The run is over, and the map keeps
    its live token source until the document is validated again. *)
Theorem silent_run_stays_in_the_map
    (JSON_parse : string → ParseResult) (PHPCSMessageType_ERROR : string)
    (evs : list Event) r run fs code stderr version table :
  let c := run_events JSON_parse PHPCSMessageType_ERROR evs in
  runs c !! r = Some (run, false) →
  runnerCancellations (state c) !! run_uri run = Some r →
  let c' := step JSON_parse PHPCSMessageType_ERROR c
              (EvClose r fs code EmptyString stderr version table) in
  runs c' !! r = Some (run, true) ∧
  runnerCancellations (state c') !! run_uri run = Some r ∧
  live r (state c') ∧
  diagnosticCollection (state c') = diagnosticCollection (state c).
Proof.
  intros c Hr Hm c'.
  assert (Hreg := registry_run_events JSON_parse PHPCSMessageType_ERROR evs).
  fold c in Hreg. destruct Hreg as [Rlive _]. destruct (Rlive _ _ Hm) as [Hl _].
  subst c'. simpl. rewrite Hr. simpl.
  destruct (on_close_early JSON_parse PHPCSMessageType_ERROR fs run EmptyString stderr
              (state c)) as (_ & Hd & Hmap & Hsrc & _).
  { apply orb_true_r. }
  unfold live. simpl. rewrite Hd, Hmap, Hsrc. split_and!; try done.
  apply list_lookup_insert_eq. by eapply lookup_lt_Some.
Qed.

(** X18 on the sample document. *)
Lemma silent_run_stays_in_the_map_witness :
  let c := run_events sample_parse "ERROR" [sample_validate] in
  let c' := step sample_parse "ERROR" c (sample_close 0 EmptyString) in
  runs c' !! 0%nat = Some (sample_run, true) ∧
  runnerCancellations (state c') !! "file:///a.php" = Some 0%nat ∧
  live 0 (state c') ∧
  diagnosticCollection (state c') = diagnosticCollection (state c).
Proof.
  apply (silent_run_stays_in_the_map sample_parse "ERROR" [sample_validate] 0%nat
           sample_run no_files (Some (Num 0)) EmptyString (Some "3.7.2") errorMsgs);
    reflexivity.
Defined.

(** ** The sniffer: no interference between documents *)

(** X19. The completion handler of a run never changes the diagnostics of
    another document, whether the run is cancelled, prints nothing, prints a
    report or prints text that does not parse. *)
Theorem on_close_keeps_other_documents
    (JSON_parse : string → ParseResult) (PHPCSMessageType_ERROR : string)
    fs run stdout stderr s uri :
  uri ≠ run_uri run →
  diagnosticCollection
    (on_close JSON_parse PHPCSMessageType_ERROR fs run stdout stderr s).2 !! uri
  = diagnosticCollection s !! uri.
Proof.
  intros Huri.
  destruct (token_cancelled (run_runner run) s || negb (truthy stdout)) eqn:Hearly.
  - destruct (on_close_early JSON_parse PHPCSMessageType_ERROR fs run stdout stderr s
                Hearly) as (_ & -> & _). done.
  - apply orb_false_iff in Hearly as [Hc Hne].
    rewrite negb_false_iff, truthy_true in Hne.
    destruct (on_close_late JSON_parse PHPCSMessageType_ERROR fs run stdout stderr s
                Hc Hne) as (-> & _).
    by rewrite lookup_insert_ne.
Qed.

(** X19 on the sample: a run for another document publishes its report. *)
Lemma on_close_keeps_other_documents_witness :
  diagnosticCollection
    (on_close sample_parse "ERROR" no_files
       {| run_uri := "file:///b.php"; run_runner := 0;
          run_standard := EmptyString; run_showSources := false |}
       sample_report_text EmptyString (sample_state false)).2 !! "file:///a.php"
  = diagnosticCollection (sample_state false) !! "file:///a.php".
Proof.
  apply (on_close_keeps_other_documents sample_parse "ERROR"). discriminate.
Defined.

(** X20. Validating one document never cancels the run of another: a runner
    that the map holds for another document is still in the map, and still
    live, after the validation. *)
Theorem validate_keeps_other_runners
    (JSON_parse : string → ParseResult) (PHPCSMessageType_ERROR : string)
    (evs : list Event) uri languageId workspaceFolder snifferEnable standard showSources
    uri' r :
  let c := run_events JSON_parse PHPCSMessageType_ERROR evs in
  runnerCancellations (state c) !! uri' = Some r →
  uri' ≠ uri →
  let c' := step JSON_parse PHPCSMessageType_ERROR c
              (EvValidate uri languageId workspaceFolder snifferEnable standard
                 showSources) in
  runnerCancellations (state c') !! uri' = Some r ∧ live r (state c').
Proof.
  intros c Hm Hne c'.
  assert (Hreg := registry_run_events JSON_parse PHPCSMessageType_ERROR
                    (evs ++ [EvValidate uri languageId workspaceFolder snifferEnable
                               standard showSources])).
  unfold run_events in Hreg. rewrite foldl_app in Hreg. simpl in Hreg.
  fold (run_events JSON_parse PHPCSMessageType_ERROR evs) in Hreg. fold c in Hreg.
  assert (runnerCancellations (state c') !! uri' = Some r) as Hm'.
  { subst c'. simpl.
    destruct (validate_cases uri languageId workspaceFolder snifferEnable (state c))
      as [-> | (s' & -> & _ & Hmap)]; [done |].
    simpl. rewrite Hmap. by rewrite lookup_insert_ne. }
  split; [done |]. destruct Hreg as [Rlive _]. by apply Rlive in Hm' as [? _].
Qed.

(** X20 on two documents. *)
Lemma validate_keeps_other_runners_witness :
  let c := run_events sample_parse "ERROR" [sample_validate] in
  let c' := step sample_parse "ERROR" c
              (EvValidate "file:///b.php" "php" (Some 0%nat) true EmptyString false) in
  runnerCancellations (state c') !! "file:///a.php" = Some 0%nat ∧ live 0 (state c').
Proof.
  apply (validate_keeps_other_runners sample_parse "ERROR" [sample_validate]
           "file:///b.php" "php" (Some 0%nat) true EmptyString false "file:///a.php" 0%nat).
  - reflexivity.
  - discriminate.
Defined.

(** ** errors.ts: what the disabled-standard explanation says *)

Lemma trimStart_opens_with_text s : opens_with_text s = true → trimStart s = s.
Proof. destruct s as [|c s]; [done |]. apply trimStart_text. Qed.

Lemma has_text_app_l a b : has_text a = true → has_text (a +:+ b) = true.
Proof.
  induction a as [|c a IH]; [done |]. rewrite append_cons. simpl.
  rewrite !orb_true_iff. intros [H | H]; [by left | right; by apply IH].
Qed.

Lemma has_text_app_r a b : has_text b = true → has_text (a +:+ b) = true.
Proof.
  intros Hb. induction a as [|c a IH]; [done |]. rewrite append_cons. simpl.
  rewrite IH. apply orb_true_r.
Qed.

(** A string that holds text is not white space only: [trimStart] leaves
    something of it. *)
Lemma trimStart_has_text s : has_text s = true → trimStart s ≠ EmptyString.
Proof.
  remember (String.length s) as n eqn:Hn. revert s Hn.
  induction (lt_wf n) as [n _ IH]. intros s Hn Hs.
  destruct s as [|c1 s1]; [done |]. cbn [trimStart].
  destruct (is_white_space c1) eqn:H1.
  { simpl in Hs. rewrite (is_white_space_no_text _ H1) in Hs.
    apply (IH (String.length s1)); [subst n; simpl; lia | done | done]. }
  destruct s1 as [|c2 s2]; [done |].
  destruct (is_white_space2 c1 c2) eqn:H2.
  { destruct (is_white_space2_no_text _ _ H2) as [Ht1 Ht2].
    simpl in Hs. rewrite Ht1, Ht2 in Hs.
    apply (IH (String.length s2)); [subst n; simpl; lia | done | done]. }
  destruct s2 as [|c3 s3]; [done |].
  destruct (is_white_space3 c1 c2 c3) eqn:H3; [| done].
  destruct (is_white_space3_no_text _ _ _ H3) as (Ht1 & Ht2 & Ht3).
  simpl in Hs. rewrite Ht1, Ht2, Ht3 in Hs.
  apply (IH (String.length s3)); [subst n; simpl; lia | done | done].
Qed.

(** [trimEnd] leaves alone what comes before text. *)
Lemma trimEnd_app a b :
  has_text b = true → trimEnd (a +:+ b) = a +:+ trimEnd b.
Proof.
  intros Hb. induction a as [|c a IH]; [done |].
  rewrite !append_cons. cbn [trimEnd].
  rewrite (proj2 (eqb_string_false _ _)), IH; [done |].
  apply trimStart_has_text. rewrite <- append_cons. by apply has_text_app_r.
Qed.

(** X21. Whatever the tool printed, the disabled-standard explanation opens
    with the name of the tool in capitals, the path of the standard between
    double quotes, and the name of the other tool as the one the ruleset is
    for; the white space that [trim] removes is never part of that
    opening. *)
Theorem getStandardDisabledErrorMsg_opening standard type stdout stderr :
  ∃ rest,
    getStandardDisabledErrorMsg standard type stdout stderr
      = disabled_opening standard type +:+ rest.
Proof.
  set (body := "It either has the attribute 'phpcs-only' or 'phpcbf-only' set to 'true' or 'false'."
               +:+ nl +:+ nl +:+ toUpperCase (tool_name type) +:+ " " +:+
               replace (or_else stdout stderr)
                 (nl +:+ "Run " +:+ dquote +:+ tool_name type +:+ " --help" +:+ dquote +:+
                  " for usage information") EmptyString).
  assert (getStandardDisabledErrorMsg standard type stdout stderr
          = trim (disabled_opening standard type +:+ " " +:+ body)) as ->.
  { unfold getStandardDisabledErrorMsg, disabled_opening, body. f_equal.
    destruct type; rewrite !app_string_assoc; reflexivity. }
  exists (trimEnd (" " +:+ body)). unfold trim.
  rewrite trimStart_opens_with_text.
  - apply trimEnd_app. apply has_text_app_r. by apply has_text_app_l.
  - unfold disabled_opening. apply opens_with_text_app. by destruct type.
Qed.

(** ** The sniffer: the status line *)

Lemma table_has_message_iff calls (n : Z) :
  is_Some (getErrorMsg_calls calls errorMsgs !! pretty n) ↔ documented_status n.
Proof.
  rewrite getErrorMsg_calls_is_Some, errorMsgs_is_Some. unfold documented_status.
  rewrite !elem_of_cons, !elem_of_nil.
  change "-1" with (pretty (-1)%Z). change "0" with (pretty 0%Z).
  change "1" with (pretty 1%Z). change "2" with (pretty 2%Z).
  change "3" with (pretty 3%Z). change "4" with (pretty 4%Z).
  change "5" with (pretty 5%Z). change "7" with (pretty 7%Z).
  change "16" with (pretty 16%Z).
  by rewrite !pretty_Z_eq.
Qed.

(** X22. With a 4.x tool the status line that the sniffer logs for a numeric
    exit code carries that code and its message from the table when the code
    is one of -1, 0, 1, 2, 3, 4, 5, 7 and 16; for every other code the line
    reads 'undefined' in place of a message. *)
Theorem status_line_4x calls v (n : Z) :
  startsWith v "4." = true →
  let table := getErrorMsg_calls calls errorMsgs in
  (documented_status n →
     ∃ msg, table !! pretty n = Some msg ∧
       status_line table (Some v) (Some (Num n))
       = [LogInfo ("SNIFFER STATUS: " +:+ pretty n +:+ " - " +:+ msg)]) ∧
  (¬ documented_status n →
     status_line table (Some v) (Some (Num n))
     = [LogInfo ("SNIFFER STATUS: " +:+ pretty n +:+ " - undefined")]).
Proof.
  intros H4 table.
  assert (status_line table (Some v) (Some (Num n))
          = [LogInfo ("SNIFFER STATUS: " +:+ pretty n +:+ " - " +:+
                      default "undefined" (table !! pretty n))]) as ->.
  { unfold status_line.
    assert (getMappedExitCode table (Some v) (Some (Num n)) sniffer = (Num n, [])) as ->.
    { unfold getMappedExitCode. rewrite H4. simpl. f_equal.
      destruct (map4xStatusFromErrors table !! pretty n) as [value|] eqn:Hv; [| done].
      simpl. by apply map4xStatusFromErrors_lookup_number in Hv. }
    done. }
  assert (Hdoc := table_has_message_iff calls n). fold table in Hdoc. split.
  - intros Hn. apply Hdoc in Hn as [msg Hmsg]. exists msg. by rewrite Hmsg.
  - intros Hn. destruct (table !! pretty n) as [msg|] eqn:Hmsg; [| done].
    destruct Hn. apply Hdoc. by eexists.
Qed.

(** X22 at version 4.0.1: the codes 16 and 6. *)
Lemma status_line_4x_witness :
  status_line errorMsgs (Some "4.0.1") (Some (Num 16))
    = [LogInfo "SNIFFER STATUS: 16 - Processing error"] ∧
  status_line errorMsgs (Some "4.0.1") (Some (Num 6))
    = [LogInfo "SNIFFER STATUS: 6 - undefined"].
Proof.
  split.
  - destruct (proj1 (status_line_4x [] "4.0.1" 16 eq_refl)) as (msg & Hmsg & Hline).
    + unfold documented_status. rewrite !elem_of_cons. tauto.
    + refine (eq_trans Hline _). vm_compute in Hmsg. injection Hmsg as <-. reflexivity.
  - apply (proj2 (status_line_4x [] "4.0.1" 6 eq_refl)).
    unfold documented_status. rewrite !elem_of_cons, elem_of_nil. intros H.
    repeat (destruct H as [H | H]; [discriminate |]). exact H.
Defined.
